(** * hvsrpy: spatial statistics of [hvsr_spatial.py]

    A shallow embedding of the weighted statistics engine ([_statistics]),
    the Monte Carlo driver ([montecarlo_fn]) and the Voronoi weighting
    methods of [HvsrSpatial], followed by the properties proved about them.

    Numbers: numpy's float64 arrays are embedded as lists over the real
    numbers [R]; every arithmetic operation of the source is the
    corresponding exact operation ([+], [*], [/], [sqrt], [exp], [ln]).
    Rounding, [nan] and [inf] are outside the embedding: where numpy would
    return [nan] or [inf] (a division by zero, the square root of a negative
    number, the logarithm of a non-positive one) the operations of [R] return
    some real number, and no statement below relies on which.  Python
    exceptions are values of type [exn], carried by [result]. *)

From Stdlib Require Import String.
From Stdlib Require Import Reals Lra Lia List Arith Bool ZArith.
From Stdlib Require Import Permutation Sorted.
Import ListNotations.

Open Scope R_scope.

(** ** Exceptions and results *)

(** The exceptions the embedded code can raise.  [CollaboratorError] stands
    for a failure inside numpy, scipy or shapely (for instance Qhull's
    error on degenerate input); it is never one of the others. *)
Inductive exn : Type :=
| NotImplementedError (msg : string)
| ValueError (msg : string)
| UnboundLocalError (name : string)
| KeyError (key : Z)
| IndexError
| CollaboratorError (what : string).

Inductive result (A : Type) : Type :=
| Ok (a : A)
| Raise (e : exn).

Arguments Ok {A} a.
Arguments Raise {A} e.

Definition bind {A B : Type} (r : result A) (k : A -> result B) : result B :=
  match r with
  | Ok a => k a
  | Raise e => Raise e
  end.

Notation "x <- r ;; k" := (bind r (fun x => k))
  (at level 61, r at next level, right associativity).
Notation "' p <- r ;; k" := (bind r (fun p => k))
  (at level 61, p pattern, r at next level, right associativity).

(** ** numpy helpers *)

(** [np.sum] of a one-dimensional array. *)
Definition np_sum (l : list R) : R := fold_left Rplus l 0.

(** The last element bound by a [for] loop over [l], if the loop ran. *)
Definition loop_last {A : Type} (l : list A) : option A :=
  fold_left (fun _ a => Some a) l None.

(** ** [_statistics] *)

(** [norm_weights = weights/np.sum(weights)] *)
Definition norm_weights (weights : list R) : list R :=
  map (fun w => w / np_sum weights) weights.

(** First loop: [mean += weight*np.sum(row_value)]. *)
Definition mean_loop (rows : list (list R * R)) : R :=
  fold_left (fun mean '(row_value, weight) => mean + weight * np_sum row_value)
            rows 0.

(** Second loop, threading the pair [(numerator, w2)]:
    [diff = row_value - mean], [numerator += weight*np.sum(diff*diff)],
    [w2 += np.sum(weight*weight)]. *)
Definition stddev_loop (mean : R) (rows : list (list R * R)) : R * R :=
  fold_left
    (fun '(numerator, w2) '(row_value, weight) =>
       let diff := map (fun v => v - mean) row_value in
       (numerator + weight * np_sum (map (fun d => d * d) diff),
        w2 + weight * weight))
    rows (0, 0).

(** [_statistics(values, weights)].  [zip] stops at the shorter of the two
    sequences; [row_value] is unbound after the loop when the zip is empty,
    so the first [len(row_value)] raises [UnboundLocalError]. *)
Definition _statistics (values : list (list R)) (weights : list R)
  : result (R * R) :=
  let rows := combine values (norm_weights weights) in
  let mean := mean_loop rows in
  match loop_last rows with
  | None => Raise (UnboundLocalError "row_value")
  | Some (row_value, _) =>
      let mean := mean / INR (length row_value) in
      let '(numerator, w2) := stddev_loop mean rows in
      let numerator := numerator / INR (length row_value) in
      let w2 := w2 / INR (length row_value) in
      let stddev := sqrt (numerator / (1 - w2)) in
      Ok (mean, stddev)
  end.

(** ** [montecarlo_fn] *)

(** A numpy [Generator]: an object with internal state of type [G].
    [draw_normal g loc scale size] is the array of [size] samples that
    [rng.normal(loc, scale, size=size)] returns from state [g], paired with
    the state the generator is left in. *)
Class Generator (G : Type) : Type := {
  draw_normal : G -> R -> R -> nat -> list R * G;
  draw_normal_size :
    forall g loc scale size, length (fst (draw_normal g loc scale size)) = size
}.

(** [rng.normal(mean, stddev, size=n)]: numpy rejects a negative scale with
    [ValueError] before it draws. *)
Definition rng_normal {G : Type} `{Generator G}
  (g : G) (mean stddev : R) (n : nat) : result (list R) * G :=
  if Rlt_dec stddev 0 then (Raise (ValueError "scale < 0"), g)
  else let '(xs, g') := draw_normal g mean stddev n in (Ok xs, g').

(** [np.empty((m, n))]: an [m] by [n] array whose entries are whatever the
    allocated memory holds, given here by [memory r c]. *)
Definition np_empty (memory : nat -> nat -> R) (m n : nat) : list (list R) :=
  map (fun r => map (memory r) (seq 0 n)) (seq 0 m).

(** [a[r, :] = xs] for a row index [r] (the loop only uses rows in range). *)
Fixpoint set_row (r : nat) (xs : list R) (a : list (list R)) {struct a}
  : list (list R) :=
  match a with
  | [] => []
  | row :: rest =>
      match r with
      | O => xs :: rest
      | S r' => row :: set_row r' xs rest
      end
  end.

(** [x in ["normal", "lognormal"]] *)
Definition recognized (distribution : string) : bool :=
  existsb (String.eqb distribution) ["normal"; "lognormal"]%string.

(** The loop [for r, (_mean, _stddev) in enumerate(zip(...))] filling
    [realizations[r, :]], started at row [r]. *)
Fixpoint fill_rows {G : Type} `{Generator G} (g : G) (n_realizations : nat)
  (r : nat) (params : list (R * R)) (realizations : list (list R))
  : result (list (list R)) * G :=
  match params with
  | [] => (Ok realizations, g)
  | (_mean, _stddev) :: rest =>
      match rng_normal g _mean _stddev n_realizations with
      | (Ok xs, g') =>
          fill_rows g' n_realizations (S r) rest (set_row r xs realizations)
      | (Raise e, g') => (Raise e, g')
      end
  end.

(** [montecarlo_fn].  [fresh] is the generator [default_rng()] would create
    at this call (seeded from the operating system) and [memory] the content
    of the block [np.empty] allocates; [rng = None] is Python's default.
    The second component is the state in which the generator that was used
    is left. *)
Definition montecarlo_fn {G : Type} `{Generator G}
  (fresh : G) (memory : nat -> nat -> R)
  (generator_means generator_stddevs generator_weights : list R)
  (distribution_generators distribution_spatial : string)
  (n_realizations : nat) (rng : option G)
  : result (R * R * list (list R)) * G :=
  let rng := match rng with None => fresh | Some g => g end in
  if negb (recognized distribution_generators) then
    (Raise (NotImplementedError
              ("dist_generators = " ++ distribution_generators
               ++ " not recognized.")), rng)
  else if negb (recognized distribution_spatial) then
    (Raise (NotImplementedError
              ("dist_spatial = " ++ distribution_spatial
               ++ " not recognized.")), rng)
  else
    let realizations := np_empty memory (length generator_means) n_realizations in
    match fill_rows rng n_realizations 0
                    (combine generator_means generator_stddevs) realizations with
    | (Raise e, rng') => (Raise e, rng')
    | (Ok realizations, rng') =>
        let realizations :=
          if (distribution_generators =? "lognormal")%string
             && (distribution_spatial =? "normal")%string
          then map (map exp) realizations
          else if (distribution_generators =? "normal")%string
                  && (distribution_spatial =? "lognormal")%string
          then map (map ln) realizations
          else realizations in
        match _statistics realizations generator_weights with
        | Raise e => (Raise e, rng')
        | Ok (fn_mean, fn_stddev) =>
            if (distribution_spatial =? "lognormal")%string
            then (Ok (exp fn_mean, fn_stddev, map (map exp) realizations), rng')
            else (Ok (fn_mean, fn_stddev, realizations), rng')
        end
    end.

(** ** Planar points and indexing *)

(** A row of an [(n, 2)] array: an [(x, y)] pair. *)
Definition point : Type := (R * R)%type.

Definition padd (a b : point) : point := (fst a + fst b, snd a + snd b).
Definition psub (a b : point) : point := (fst a - fst b, snd a - snd b).
Definition pscale (k : R) (a : point) : point := (k * fst a, k * snd a).
Definition pmul (a : point) (k : R) : point := (fst a * k, snd a * k).
Definition pdiv (a : point) (k : R) : point := (fst a / k, snd a / k).

(** [np.dot] of two points. *)
Definition dot (a b : point) : R := fst a * fst b + snd a * snd b.

(** [np.linalg.norm] of a point. *)
Definition norm (a : point) : R := sqrt (fst a * fst a + snd a * snd a).

(** [np.sign] *)
Definition sign (x : R) : R :=
  if Rlt_dec 0 x then 1 else if Rlt_dec x 0 then -1 else 0.

(** [np.arctan2(y, x)] *)
Definition arctan2 (y x : R) : R :=
  if Rlt_dec 0 x then atan (y / x)
  else if Rlt_dec x 0 then
    (if Rle_dec 0 y then atan (y / x) + PI else atan (y / x) - PI)
  else if Rlt_dec 0 y then PI / 2
  else if Rlt_dec y 0 then - (PI / 2)
  else 0.

(** [a.mean(axis=0)] of an [(n, 2)] array. *)
Definition mean_axis0 (a : list point) : point :=
  (np_sum (map fst a) / INR (length a), np_sum (map snd a) / INR (length a)).

(** [seq[i]] for a Python list or a numpy array: a negative index counts
    from the end, an index out of range raises [IndexError]. *)
Definition getitem {A : Type} (l : list A) (i : Z) : result A :=
  let n := Z.of_nat (length l) in
  let j := (if i <? 0 then i + n else i)%Z in
  if ((j <? 0) || (n <=? j))%Z then Raise IndexError
  else match nth_error l (Z.to_nat j) with
       | Some a => Ok a
       | None => Raise IndexError
       end.

(** [[f(x) for x in l]] where [f] may raise. *)
Fixpoint for_each {A B : Type} (f : A -> result B) (l : list A)
  : result (list B) :=
  match l with
  | [] => Ok []
  | x :: rest => y <- f x ;; ys <- for_each f rest ;; Ok (y :: ys)
  end.

(** Insertion of [(angle, i)] into a list sorted by angle; an element goes
    after the elements that compare equal to it. *)
Fixpoint insert_by_angle (x : R * nat) (l : list (R * nat)) : list (R * nat) :=
  match l with
  | [] => [x]
  | y :: rest =>
      if Rlt_dec (fst x) (fst y) then x :: y :: rest
      else y :: insert_by_angle x rest
  end.

Definition sort_by_angle (l : list (R * nat)) : list (R * nat) :=
  fold_left (fun sorted x => insert_by_angle x sorted) l [].

(** [np.argsort(angles)]: the positions of [angles] in nondecreasing order
    of their values (positions of equal values are kept in order here; numpy
    leaves their order open). *)
Definition argsort (angles : list R) : list nat :=
  map snd (sort_by_angle (combine angles (seq 0 (length angles)))).

(** ** The Voronoi diagram of [scipy.spatial.Voronoi] *)

(** The attributes of a [Voronoi] object the code reads.  A vertex index of
    [-1] stands for the vertex at infinity. *)
Record Voronoi : Type := {
  points : list point;
  vertices : list point;
  ridge_points : list (Z * Z);
  ridge_vertices : list (Z * Z);
  regions : list (list Z);
  point_region : list Z
}.

(** The dictionary [all_ridges]: keys in insertion order. *)
Definition ridge_dict : Type := list (Z * list (Z * Z * Z)).

(** [d.setdefault(k, []).append(x)] *)
Fixpoint setdefault_append (d : ridge_dict) (k : Z) (x : Z * Z * Z)
  : ridge_dict :=
  match d with
  | [] => [(k, [x])]
  | (k', l) :: rest =>
      if (k =? k')%Z then (k', l ++ [x]) :: rest
      else (k', l) :: setdefault_append rest k x
  end.

(** [d[k]] *)
Fixpoint dict_getitem (d : ridge_dict) (k : Z) : result (list (Z * Z * Z)) :=
  match d with
  | [] => Raise (KeyError k)
  | (k', l) :: rest => if (k =? k')%Z then Ok l else dict_getitem rest k
  end.

(** The map from a point to all of its ridges. *)
Definition build_all_ridges (vor : Voronoi) : ridge_dict :=
  fold_left
    (fun all_ridges '((p1, p2), (v1, v2)) =>
       setdefault_append (setdefault_append all_ridges p1 (p2, v1, v2))
                         p2 (p1, v1, v2))
    (combine (ridge_points vor) (ridge_vertices vor)) [].

(** [a.ptp().max()] of an [(n, 2)] array: the largest coordinate minus the
    smallest, over both columns; numpy raises [ValueError] on an empty
    array. *)
Definition ptp_max (a : list point) : result R :=
  match flat_map (fun p => [fst p; snd p]) a with
  | [] => Raise (ValueError "zero-size array")
  | x :: rest => Ok (fold_left Rmax rest x - fold_left Rmin rest x)
  end.

(** The missing endpoint of the infinite ridge between [p1] and [p2] whose
    finite vertex is [v2]. *)
Definition far_point (vor : Voronoi) (center : point) (radius : R)
  (p1 p2 v2 : Z) : result point :=
  P2 <- getitem (points vor) p2 ;;
  P1 <- getitem (points vor) p1 ;;
  let t := psub P2 P1 in
  let t := pdiv t (norm t) in
  let n := (- snd t, fst t) in
  let midpoint := mean_axis0 [P1; P2] in
  let direction := pscale (sign (dot (psub midpoint center) n)) n in
  V2 <- getitem (vertices vor) v2 ;;
  Ok (padd V2 (pmul direction radius)).

(** The loop [for p2, v1, v2 in ridges], threading [new_region] and
    [new_vertices]. *)
Fixpoint ridge_loop (vor : Voronoi) (center : point) (radius : R) (p1 : Z)
  (ridges : list (Z * Z * Z)) (new_region : list Z) (new_vertices : list point)
  : result (list Z * list point) :=
  match ridges with
  | [] => Ok (new_region, new_vertices)
  | (p2, v1, v2) :: rest =>
      let '(v1, v2) := if (v2 <? 0)%Z then (v2, v1) else (v1, v2) in
      if (0 <=? v1)%Z then
        ridge_loop vor center radius p1 rest new_region new_vertices
      else
        far <- far_point vor center radius p1 p2 v2 ;;
        ridge_loop vor center radius p1 rest
                   (new_region ++ [Z.of_nat (length new_vertices)])
                   (new_vertices ++ [far])
  end.

(** The angles of the vertices [vs] about their centroid. *)
Definition polar_angles (vs : list point) : list R :=
  let c := mean_axis0 vs in
  map (fun v => arctan2 (snd v - snd c) (fst v - fst c)) vs.

(** "sort region counterclockwise": [vs[:, 1]] raises [IndexError] when
    [vs] is empty, since [np.asarray([])] is one-dimensional. *)
Definition sort_region (new_region : list Z) (new_vertices : list point)
  : result (list Z) :=
  vs <- for_each (getitem new_vertices) new_region ;;
  match vs with
  | [] => Raise IndexError
  | _ =>
      let angles := polar_angles vs in
      Ok (map (fun i => nth i new_region 0%Z) (argsort angles))
  end.

(** One iteration of [for p1, region in enumerate(vor.point_region)]. *)
Definition reconstruct_region (vor : Voronoi) (center : point) (radius : R)
  (all_ridges : ridge_dict) (p1 : Z) (region : Z)
  (new_regions : list (list Z)) (new_vertices : list point)
  : result (list (list Z) * list point) :=
  vertices <- getitem (regions vor) region ;;
  if forallb (fun v => (0 <=? v)%Z) vertices then
    Ok (new_regions ++ [vertices], new_vertices)
  else
    ridges <- dict_getitem all_ridges p1 ;;
    let new_region := filter (fun v => (0 <=? v)%Z) vertices in
    '(new_region, new_vertices) <-
      ridge_loop vor center radius p1 ridges new_region new_vertices ;;
    new_region <- sort_region new_region new_vertices ;;
    Ok (new_regions ++ [new_region], new_vertices).

Fixpoint region_loop (vor : Voronoi) (center : point) (radius : R)
  (all_ridges : ridge_dict) (p1 : nat) (point_regions : list Z)
  (new_regions : list (list Z)) (new_vertices : list point)
  : result (list (list Z) * list point) :=
  match point_regions with
  | [] => Ok (new_regions, new_vertices)
  | region :: rest =>
      '(new_regions, new_vertices) <-
        reconstruct_region vor center radius all_ridges (Z.of_nat p1) region
                           new_regions new_vertices ;;
      region_loop vor center radius all_ridges (S p1) rest
                  new_regions new_vertices
  end.

(** [HvsrSpatial._voronoi_finite_polygons_2d(vor, radius=None)].  The check
    [vor.points.shape[1] != 2] cannot fail on a list of [point]. *)
Definition _voronoi_finite_polygons_2d (vor : Voronoi) (radius : option R)
  : result (list (list Z) * list point) :=
  let new_regions := [] in
  let new_vertices := vertices vor in
  let center := mean_axis0 (points vor) in
  radius <- match radius with
            | None => ptp_max (points vor)
            | Some radius => Ok radius
            end ;;
  let all_ridges := build_all_ridges vor in
  region_loop vor center radius all_ridges 0 (point_region vor)
              new_regions new_vertices.

(** ** [HvsrSpatial] *)

(** The geometry collaborators: shapely's convex hull, containment test,
    area and polygon intersection, and scipy's Voronoi tessellation.  A
    collaborator that fails returns [None]; the embedding raises
    [CollaboratorError] for it.  [Mask] is the type of the shapely geometry
    used as boundary mask. *)
Class Collaborators (Mask : Type) : Type := {
  (** [MultiPoint([Point(i) for i in boundary]).convex_hull] *)
  convex_hull : list point -> Mask;
  (** [mask.area] *)
  mask_area : Mask -> R;
  (** [mask.contains(Point(x, y))] *)
  contains : Mask -> point -> bool;
  (** [Polygon(closed_points).area] *)
  polygon_area : list point -> option R;
  (** the coordinates [zip(xs, ys)] of
      [Polygon(closed_points).intersection(mask).boundary.xy] *)
  intersection_boundary : list point -> Mask -> option (list point);
  (** [Voronoi(points)] *)
  tessellate : list point -> option Voronoi;
  mask_area_nonneg : forall mask, 0 <= mask_area mask;
  polygon_area_nonneg :
    forall closed_points a, polygon_area closed_points = Some a -> 0 <= a
}.

Definition collaborate {A : Type} (what : string) (o : option A) : result A :=
  match o with
  | Some a => Ok a
  | None => Raise (CollaboratorError what)
  end.

(** [np.array(rows)] of a list of rows, followed by the shape test of the
    caller and the reading of each row as a point.  An empty list gives a
    one-dimensional array, on which the caller's use of the shape raises
    [one_dim]; rows of different lengths are left to numpy.  The messages
    omit the shape the source prints. *)
Definition as_points (one_dim : exn) (msg : string) (rows : list (list R))
  : result (list point) :=
  match rows with
  | [] => Raise one_dim
  | first :: _ =>
      if negb (forallb (fun row => length row =? length first)%nat rows)
      then Raise (CollaboratorError "np.array")
      else if negb (length first =? 2)%nat then Raise (ValueError msg)
      else Ok (map (fun row => (nth 0 row 0, nth 1 row 0)) rows)
  end.

(** The object state: [self.coordinates]. *)
Record HvsrSpatial : Type := { coordinates : list point }.

(** [HvsrSpatial.__init__(coordinates)]: [npts, dim = coordinates.shape]
    fails to unpack a one-dimensional shape. *)
Definition __init__ (coords : list (list R)) : result HvsrSpatial :=
  pts <- as_points (ValueError "not enough values to unpack")
                   "coordinates must have shape (N,2)." coords ;;
  if (length pts <? 3)%nat
  then Raise (ValueError "Requires at least three coordinates.")
  else Ok {| coordinates := pts |}.

Section Methods.

Context {Mask : Type} `{Collaborators Mask}.

(** [HvsrSpatial._boundary_to_mask(boundary)] *)
Definition _boundary_to_mask (boundary : list (list R)) : result Mask :=
  bounding_pts <- as_points IndexError
                            "boundary must have shape (N,2)." boundary ;;
  Ok (convex_hull bounding_pts).

(** The loop of [_cull_points] from position [index] on; the third list
    collects the points reported by [logger.info]. *)
Fixpoint cull_loop (mask : Mask) (index : nat) (coords : list point)
  : list point * list nat * list point :=
  match coords with
  | [] => ([], [], [])
  | (x, y) :: rest =>
      let '(passing_points, passing_indices, discarded) :=
        cull_loop mask (S index) rest in
      if contains mask (x, y)
      then ((x, y) :: passing_points, index :: passing_indices, discarded)
      else (passing_points, passing_indices, (x, y) :: discarded)
  end.

(** [HvsrSpatial._cull_points(mask)]: the points inside the mask, their
    indices in [self.coordinates], and the log of discarded points. *)
Definition _cull_points (self : HvsrSpatial) (mask : Mask)
  : list point * list nat * list point :=
  cull_loop mask 0 (coordinates self).

(** [np.vstack((a, a[0]))] *)
Definition close_ring (a : list point) : result (list point) :=
  first <- getitem a 0 ;; Ok (a ++ [first]).

(** The body of the loop [for region in regions] of [_bounded_voronoi]. *)
Definition clip_region (mask : Mask) (vertices : list point) (region : list Z)
  : result (list point) :=
  unique_points <- for_each (getitem vertices) region ;;
  closed_points <- close_ring unique_points ;;
  boundary_xy <- collaborate "intersection"
                   (intersection_boundary closed_points mask) ;;
  Ok (removelast boundary_xy).

(** [HvsrSpatial._bounded_voronoi(mask, radius=1E6)] *)
Definition _bounded_voronoi (self : HvsrSpatial) (mask : Mask) (radius : R)
  : result (list (list point) * list nat) :=
  let '(points, indices, _) := _cull_points self mask in
  vor <- collaborate "Voronoi" (tessellate points) ;;
  '(regions, vertices) <- _voronoi_finite_polygons_2d vor (Some radius) ;;
  new_vertices <- for_each (clip_region mask vertices) regions ;;
  Ok (new_vertices, indices).

(** The body of the loop [for i, region in enumerate(regions)] of
    [_voronoi_weights]. *)
Definition region_area (region : list point) : result R :=
  closed_points <- close_ring region ;;
  collaborate "Polygon" (polygon_area closed_points).

(** [HvsrSpatial._voronoi_weights(boundary)] *)
Definition _voronoi_weights (self : HvsrSpatial) (boundary : list (list R))
  : result (list R * list nat) :=
  mask <- _boundary_to_mask boundary ;;
  let total_area := mask_area mask in
  '(regions, indices) <- _bounded_voronoi self mask 1000000 ;;
  areas <- for_each region_area regions ;;
  Ok (map (fun a => a / total_area) areas, indices).

(** [HvsrSpatial.spatial_weights(boundary, declustering_method="voronoi")] *)
Definition spatial_weights (self : HvsrSpatial) (boundary : list (list R))
  (declustering_method : string) : result (list R * list nat) :=
  if (declustering_method =? "voronoi")%string then
    '(weights, indices) <- _voronoi_weights self boundary ;;
    Ok (weights, indices)
  else Raise (NotImplementedError "").

End Methods.

(** [HvsrSpatial.bounded_voronoi(boundary)] *)
Definition bounded_voronoi {Mask : Type} `{Collaborators Mask}
  (self : HvsrSpatial) (boundary : list (list R))
  : result (list (list point) * list nat) :=
  mask <- _boundary_to_mask boundary ;;
  _bounded_voronoi self mask 1000000.

(** ** The statistics as the specification words them *)

(** The sum of [f i] over [0 <= i < n]. *)
Fixpoint big_sum (n : nat) (f : nat -> R) : R :=
  match n with
  | O => 0
  | S k => big_sum k f + f k
  end.

(** [value[i, j]] *)
Definition entry (values : list (list R)) (i j : nat) : R :=
  nth j (nth i values []) 0.

(** [normalized_weight_i]: the input weight over the sum of the [M]
    weights. *)
Definition normalized_weight (weights : list R) (M i : nat) : R :=
  nth i weights 0 / big_sum M (fun k => nth k weights 0).

(** Weighted mean: the sum over locations of the normalized weight times the
    sum over realizations of the value, divided by [N]. *)
Definition spec_mean (values : list (list R)) (weights : list R) (M N : nat)
  : R :=
  big_sum M (fun i =>
    normalized_weight weights M i * big_sum N (fun j => entry values i j))
  / INR N.

(** The numerator of the weighted variance, already divided by [N]. *)
Definition spec_numerator (values : list (list R)) (weights : list R)
  (M N : nat) : R :=
  big_sum M (fun i =>
    normalized_weight weights M i
    * big_sum N (fun j =>
        (entry values i j - spec_mean values weights M N)
        * (entry values i j - spec_mean values weights M N)))
  / INR N.

(** The sum of the squared normalized weights. *)
Definition spec_w2 (weights : list R) (M : nat) : R :=
  big_sum M (fun i =>
    normalized_weight weights M i * normalized_weight weights M i).

(** Weighted standard deviation with the denominator [1 - sum of squared
    weights], the weight-squared sum not divided further. *)
Definition spec_stddev (values : list (list R)) (weights : list R)
  (M N : nat) : R :=
  sqrt (spec_numerator values weights M N / (1 - spec_w2 weights M)).

(** Weighted standard deviation with the weight-squared sum divided by the
    number of realizations [N] before it is subtracted from 1. *)
Definition pooled_stddev (values : list (list R)) (weights : list R)
  (M N : nat) : R :=
  sqrt (spec_numerator values weights M N
        / (1 - spec_w2 weights M / INR N)).

(** ** The sampling loop without its array *)

(** The rows the loop of [montecarlo_fn] draws, one per [(mean, stddev)]
    pair, without the array they are stored in. *)
Fixpoint draw_rows {G : Type} `{Generator G} (g : G) (n_realizations : nat)
  (params : list (R * R)) : result (list (list R)) * G :=
  match params with
  | [] => (Ok [], g)
  | (_mean, _stddev) :: rest =>
      match rng_normal g _mean _stddev n_realizations with
      | (Ok xs, g') =>
          match draw_rows g' n_realizations rest with
          | (Ok rows, g'') => (Ok (xs :: rows), g'')
          | (Raise e, g'') => (Raise e, g'')
          end
      | (Raise e, g') => (Raise e, g')
      end
  end.

(** The generator a call of [montecarlo_fn] works with: the one supplied,
    or the fresh one when [rng] is [None]. *)
Definition generator_used {G : Type} (fresh : G) (rng : option G) : G :=
  match rng with None => fresh | Some g => g end.

(** ** The reconstruction as the specification words it *)

(** The order [sort_by_angle] sorts by. *)
Definition angle_le (a b : R * nat) : Prop := fst a <= fst b.

(** The list a dictionary holds for [p], empty when [p] is not a key. *)
Definition entries_of (d : ridge_dict) (p : Z) : list (Z * Z * Z) :=
  match dict_getitem d p with
  | Ok l => l
  | Raise _ => []
  end.

(** A ridge [(p2, v1, v2)] of a point is infinite when one of its two
    vertex indices is negative; its finite vertex is the other one. *)
Definition ridge_is_infinite (ridge : Z * Z * Z) : bool :=
  let '(_, v1, v2) := ridge in ((v1 <? 0) || (v2 <? 0))%Z.

Definition finite_vertex (ridge : Z * Z * Z) : Z :=
  let '(_, v1, v2) := ridge in if (v2 <? 0)%Z then v1 else v2.

Definition neighbor (ridge : Z * Z * Z) : Z :=
  let '(p2, _, _) := ridge in p2.

(** The ridges of point [p], in the order of [vor.ridge_points]. *)
Definition ridges_of (vor : Voronoi) (p : Z) : list (Z * Z * Z) :=
  flat_map
    (fun '((a, b), (v1, v2)) =>
       (if (p =? a)%Z then [(b, v1, v2)] else [])
       ++ (if (p =? b)%Z then [(a, v1, v2)] else []))
    (combine (ridge_points vor) (ridge_vertices vor)).

(** The synthesized vertex: the finite vertex [V] plus sign * normal *
    radius, the normal being the unit direction from [P1] to [P2] turned by
    90 degrees and the sign that of the dot product of (midpoint of [P1] and
    [P2] minus [center]) with the normal. *)
Definition spec_far_point (P1 P2 V center : point) (radius : R) : point :=
  let d := psub P2 P1 in
  let unit := pdiv d (norm d) in
  let normal := (- snd unit, fst unit) in
  let midpoint := pdiv (padd P1 P2) 2 in
  let s := sign (dot (psub midpoint center) normal) in
  padd V (pscale (s * radius) normal).

(** [far] is the synthesized vertex of the infinite ridge [ridge] of point
    [p1]. *)
Definition synthesized (vor : Voronoi) (center : point) (radius : R) (p1 : Z)
  (ridge : Z * Z * Z) (far : point) : Prop :=
  exists P1 P2 V,
    getitem (points vor) p1 = Ok P1 /\
    getitem (points vor) (neighbor ridge) = Ok P2 /\
    getitem (vertices vor) (finite_vertex ridge) = Ok V /\
    far = spec_far_point P1 P2 V center radius.

(** [out_region] lists the positions [collected] in an order in which the
    polar angles of their vertices about the centroid never decrease. *)
Definition ordered_by_angle (all_vertices : list point)
  (collected out_region : list Z) : Prop :=
  exists vs order,
    for_each (getitem all_vertices) collected = Ok vs /\
    Permutation order (seq 0 (length collected)) /\
    out_region = map (fun i => nth i collected 0%Z) order /\
    StronglySorted Rle (map (fun i => nth i (polar_angles vs) 0) order).

(** What the reconstructor has made of the region [region] of point [p1],
    with [out_vertices] the final vertex array. *)
Definition region_reconstructed (vor : Voronoi) (center : point) (radius : R)
  (p1 region : Z) (out_region : list Z) (out_vertices : list point) : Prop :=
  exists region_vertices,
    getitem (regions vor) region = Ok region_vertices /\
    ((forallb (fun v => (0 <=? v)%Z) region_vertices = true /\
      out_region = region_vertices)
     \/
     (forallb (fun v => (0 <=? v)%Z) region_vertices = false /\
      exists base fars,
        Forall2 (synthesized vor center radius p1)
                (filter ridge_is_infinite (ridges_of vor p1)) fars /\
        (forall k, (k < length fars)%nat ->
                   nth_error out_vertices (base + k) = nth_error fars k) /\
        ordered_by_angle out_vertices
          (filter (fun v => (0 <=? v)%Z) region_vertices
           ++ map Z.of_nat (seq base (length fars)))
          out_region)).


(** ** Failures other than the unsupported-configuration error *)

Definition supported_failure (e : exn) : Prop :=
  match e with
  | NotImplementedError _ => False
  | _ => True
  end.

(** [r] is a value or a failure other than [NotImplementedError]. *)
Definition never_unsupported {A : Type} (r : result A) : Prop :=
  match r with
  | Ok _ => True
  | Raise e => supported_failure e
  end.

(** * Examples *)

(** ** A generator for examples *)

(** A reproducible stand-in for a seeded numpy generator, used to run the
    code on concrete inputs: its state is a counter [k], and its next sample
    for [(loc, scale)] is [loc + scale * k]. *)
Definition counter_draw (g : nat) (loc scale : R) (size : nat)
  : list R * nat :=
  (map (fun k => loc + scale * INR k) (seq g size), (g + size)%nat).

#[export] Instance counter_generator : Generator nat.
Proof.
  refine {| draw_normal := counter_draw; draw_normal_size := _ |}.
  intros g loc scale size. unfold counter_draw. simpl.
  now rewrite length_map, length_seq.
Defined.

(** ** Three sensors in a large square *)

(** Twice the signed area of a closed ring of coordinates. *)
Fixpoint shoelace (ring : list point) : R :=
  match ring with
  | a :: (b :: _) as rest => (fst a * snd b - fst b * snd a) + shoelace rest
  | _ => 0
  end.

(** The area shapely reports for the polygon with this closed ring. *)
Definition ring_area (ring : list point) : R := Rabs (shoelace ring) / 2.

(** [p] is strictly to the left of the edge from [a] to [b]. *)
Definition left_of (a b p : point) : bool :=
  if Rlt_dec 0 ((fst b - fst a) * (snd p - snd a)
                - (snd b - snd a) * (fst p - fst a))
  then true else false.

(** The edges of a closed ring. *)
Fixpoint edges (ring : list point) : list (point * point) :=
  match ring with
  | a :: (b :: _) as rest => (a, b) :: edges rest
  | _ => []
  end.

(** A point is in the interior of a convex polygon, given by its vertices
    in counterclockwise order, when it is strictly left of every edge. *)
Definition inside_convex (polygon : list point) (p : point) : bool :=
  forallb (fun e => left_of (fst e) (snd e) p)
          (edges (polygon ++ firstn 1 polygon)).

Definition point_eq_dec (a b : point) : {a = b} + {a <> b}.
Proof. decide equality; apply Req_EM_T. Defined.

(** The boundary: the corners of a square of side 8 000 000, and the three
    sensors, at the corners of a right triangle with sides 3, 4 and 5
    million. *)
Definition square_boundary : list (list R) :=
  [[0; 0]; [8000000; 0]; [8000000; 8000000]; [0; 8000000]].

Definition three_sensors : HvsrSpatial :=
  {| coordinates :=
       [(2000000, 2000000); (6000000, 2000000); (2000000, 5000000)] |}.

(** The Voronoi diagram of the three sensors: one vertex, their
    circumcentre, and three infinite ridges. *)
Definition three_sensor_voronoi : Voronoi :=
  {| points := coordinates three_sensors;
     vertices := [(4000000, 3500000)];
     ridge_points := [(0, 1); (0, 2); (1, 2)]%Z;
     ridge_vertices := [(-1, 0); (-1, 0); (-1, 0)]%Z;
     regions := [[]; [-1; 0]; [-1; 0]; [-1; 0]]%Z;
     point_region := [1; 2; 3]%Z |}.

(** The collaborators as far as the example needs them.  The mask is the
    list of the vertices of a convex polygon in counterclockwise order; the
    hull of such a list is the list itself.  A polygon whose vertices are
    all inside the mask is its own intersection with the mask (shapely may
    start the ring at another vertex or turn it around, which leaves the
    area as it is); other intersections are not provided.  Only the three
    sensors are tessellated. *)
Definition example_polygon_area (closed_points : list point) : option R :=
  if (length closed_points <? 4)%nat then None
  else Some (ring_area closed_points).

Definition example_intersection (closed_points : list point)
  (mask : list point) : option (list point) :=
  if forallb (inside_convex mask) closed_points then Some closed_points
  else None.

Definition example_tessellate (points : list point) : option Voronoi :=
  if list_eq_dec point_eq_dec points (coordinates three_sensors)
  then Some three_sensor_voronoi else None.

#[export] Instance example_collaborators : Collaborators (list point).
Proof.
  refine {| convex_hull := fun boundary => boundary;
            mask_area := fun mask => ring_area (mask ++ firstn 1 mask);
            contains := inside_convex;
            polygon_area := example_polygon_area;
            intersection_boundary := example_intersection;
            tessellate := example_tessellate;
            mask_area_nonneg := _;
            polygon_area_nonneg := _ |}.
  - intros mask. unfold ring_area.
    apply Rmult_le_pos; [apply Rabs_pos | lra].
  - intros closed_points a. unfold example_polygon_area.
    destruct (length closed_points <? 4)%nat; [discriminate|].
    intros [= <-]. unfold ring_area.
    apply Rmult_le_pos; [apply Rabs_pos | lra].
Defined.

(** The mask of the example, and the vertices of the reconstructed regions:
    the Voronoi vertex and the far points of the three ridges, each
    1 000 000 away from it. *)
Definition square_mask : list point :=
  [(0, 0); (8000000, 0); (8000000, 8000000); (0, 8000000)].

Definition circumcentre : point := (4000000, 3500000).
Definition far_01 : point := (4000000, 2500000).
Definition far_02 : point := (3000000, 3500000).
Definition far_12 : point := (4600000, 4300000).

(** The vertex array after reconstruction: each region has appended its
    own two far points. *)
Definition example_vertices : list point :=
  [circumcentre; far_01; far_02; far_01; far_12; far_02; far_12].

(** The three regions, triangles, in the order [argsort] puts their
    vertices in. *)
Definition example_regions : list (list Z) :=
  [map (fun i => nth i [0; 1; 2]%Z 0%Z)
       (argsort (polar_angles [circumcentre; far_01; far_02]));
   map (fun i => nth i [0; 3; 4]%Z 0%Z)
       (argsort (polar_angles [circumcentre; far_01; far_12]));
   map (fun i => nth i [0; 5; 6]%Z 0%Z)
       (argsort (polar_angles [circumcentre; far_02; far_12]))].

(** The weights the example ends with: the areas of the triangles over the
    area of the square. *)
Definition example_weight_vector : list R :=
  [500000000000 / 64000000000000; 300000000000 / 64000000000000;
   400000000000 / 64000000000000].

(** * [timeseries.py]

    The class [TimeSeries]: an amplitude array and a time step.  The methods
    that hand the array to scipy ([detrend], [window], [butterworth_filter])
    are not part of the embedding.  Methods that update the object return
    the object as updated. *)

Module Series.

(** The exceptions of this file.  The messages leave out the numbers the
    source prints in them. *)
Inductive error : Type :=
| TypeError (msg : string)
| IndexError (msg : string)
| ValueError (msg : string)
| ZeroDivisionError.

Inductive outcome (A : Type) : Type :=
| Return (a : A)
| Throw (e : error).

Arguments Return {A} a.
Arguments Throw {A} e.

(** What a caller may pass as [amplitude]: a number, or a sequence of such
    values. *)
#[warnings="-register-all"]
Inductive pyvalue : Type :=
| Number (x : R)
| Sequence (items : list pyvalue).

Definition same_shape (s : list nat) (t : option (list nat)) : bool :=
  match t with
  | Some s' => if list_eq_dec Nat.eq_dec s s' then true else false
  | None => false
  end.

(** The shape of [np.array(v, dtype=np.double)]; [None] when numpy raises
    [ValueError] because the sequences do not form a rectangular array. *)
Fixpoint np_shape (v : pyvalue) : option (list nat) :=
  match v with
  | Number _ => Some []
  | Sequence [] => Some [0%nat]
  | Sequence (x :: rest) =>
      match np_shape x with
      | None => None
      | Some s =>
          if forallb (fun y => same_shape s (np_shape y)) rest
          then Some (S (length rest) :: s)
          else None
      end
  end.

(** The entries of a one-dimensional array. *)
Definition entries (v : pyvalue) : list R :=
  match v with
  | Number x => [x]
  | Sequence items =>
      flat_map (fun y => match y with Number x => [x] | Sequence _ => [] end)
               items
  end.

(** The object state: [self.amplitude] and [self.dt]. *)
Record TimeSeries : Type := { amplitude : list R; dt : R }.

(** [TimeSeries.__init__(amplitude, dt)] *)
Definition __init__ (v : pyvalue) (step : R) : outcome TimeSeries :=
  match np_shape v with
  | None =>
      Throw (TypeError "`amplitude` must be convertable to numeric `ndarray`.")
  | Some shape =>
      if negb (length shape =? 1)%nat
      then Throw (TypeError "`amplitude` must be 1-D.")
      else Return {| amplitude := entries v; dt := step |}
  end.

(** [nsamples] *)
Definition nsamples (self : TimeSeries) : nat := length (amplitude self).

(** [fs]: in Python [1/0.0] raises [ZeroDivisionError]. *)
Definition fs (self : TimeSeries) : outcome R :=
  if Req_EM_T (dt self) 0 then Throw ZeroDivisionError
  else Return (1 / dt self).

(** [fnyq] *)
Definition fnyq (self : TimeSeries) : outcome R :=
  match fs self with
  | Return f => Return (0.5 * f)
  | Throw e => Throw e
  end.

(** [time()]: [np.arange(self.nsamples)*self.dt] *)
Definition time (self : TimeSeries) : list R :=
  map (fun i => INR i * dt self) (seq 0 (nsamples self)).

(** [np.argmin]: the first position of the smallest entry.  [best_i] and
    [best] are the position and value of the smallest entry so far, [i] the
    position of the head of [l]. *)
Fixpoint argmin_from (best_i : nat) (best : R) (i : nat) (l : list R) : nat :=
  match l with
  | [] => best_i
  | x :: rest =>
      if Rlt_dec x best then argmin_from i x (S i) rest
      else argmin_from best_i best (S i) rest
  end.

Definition np_argmin (l : list R) : nat :=
  match l with
  | [] => 0%nat
  | x :: rest => argmin_from 0 x 1 rest
  end.

(** [a[start:stop]]: a negative bound counts from the end, and bounds are
    cut to the array. *)
Definition slice {A : Type} (a : list A) (start stop : Z) : list A :=
  let n := Z.of_nat (length a) in
  let clamp := fun i => (if i <? 0 then Z.max (i + n) 0 else Z.min i n)%Z in
  firstn (Z.to_nat (clamp stop - clamp start)) (skipn (Z.to_nat (clamp start)) a).

(** [trim(start_time, end_time)]; the built-in [max] raises [ValueError] on
    an empty sequence. *)
Definition trim (self : TimeSeries) (start_time end_time : R)
  : outcome TimeSeries :=
  let current_time := time self in
  match current_time with
  | [] => Throw (ValueError "max() arg is an empty sequence")
  | t0 :: rest =>
      let start := 0 in
      let end_ := fold_left Rmax rest t0 in
      if Rlt_dec start_time start then
        Throw (IndexError "Illogical `start_time` for trim; before start of record.")
      else if Rle_dec end_time start_time then
        Throw (IndexError "Illogical `start_time` for trim; not before `end_time`.")
      else if Rlt_dec end_ end_time then
        Throw (IndexError "Illogical end_time for trim; after end of record.")
      else
        let start_index :=
          np_argmin (map (fun t => Rabs (t - start_time)) current_time) in
        let end_index :=
          np_argmin (map (fun t => Rabs (t - end_time)) current_time) in
        Return {| amplitude := slice (amplitude self) (Z.of_nat start_index)
                                     (Z.of_nat end_index + 1);
                  dt := dt self |}
  end.

Section Split.

(** [int(a/b)] as float64 arithmetic computes it, for [b] other than zero:
    the quotient is rounded before it is truncated, so this is not always
    the truncation of the exact quotient. *)
Variable int_quotient : R -> R -> Z.

(** The loop [for _ in range(nwindows)], [count] iterations from
    [start_idx].  The constructor cannot fail on a slice of the amplitude. *)
Fixpoint split_loop (self : TimeSeries) (samples_per_window : Z)
  (count : nat) (start_idx : Z) : list TimeSeries :=
  match count with
  | O => []
  | S count' =>
      let end_idx := (start_idx + samples_per_window)%Z in
      {| amplitude := slice (amplitude self) start_idx end_idx;
         dt := dt self |}
      :: split_loop self samples_per_window count' (end_idx - 1)
  end.

(** [split(window_length_in_seconds)].  [int(self.nsamples / k)] truncates
    the quotient of two integers towards zero (exact for fewer than 2^52
    samples). *)
Definition split (self : TimeSeries) (window_length_in_seconds : R)
  : outcome (list TimeSeries) :=
  if Req_EM_T (dt self) 0 then Throw ZeroDivisionError
  else
    let samples_per_window :=
      (int_quotient window_length_in_seconds (dt self) + 1)%Z in
    if (samples_per_window - 1 =? 0)%Z then Throw ZeroDivisionError
    else
      let nwindows :=
        Z.quot (Z.of_nat (nsamples self)) (samples_per_window - 1) in
      if (nwindows <? 1)%Z then
        Throw (ValueError "Window length is larger than the record length.")
      else
        Return (split_loop self samples_per_window (Z.to_nat nwindows) 0).

End Split.

(** [TimeSeries.from_timeseries(timeseries)]: the constructor on an array
    that is one-dimensional. *)
Definition from_timeseries (timeseries : TimeSeries) : TimeSeries :=
  {| amplitude := amplitude timeseries; dt := dt timeseries |}.

(** The second operand of a comparison: a [TimeSeries] or any other
    object. *)
Inductive pyobject : Type :=
| IsTimeSeries (ts : TimeSeries)
| Other.

(** [is_similar(other)] *)
Definition is_similar (self : TimeSeries) (other : pyobject) : bool :=
  match other with
  | Other => false
  | IsTimeSeries other =>
      if Rlt_dec (1 / 100000000) (Rabs (dt other - dt self)) then false
      else if negb (nsamples other =? nsamples self)%nat then false
      else true
  end.

(** [np.allclose(a, b)] for arrays of one length, with numpy's default
    tolerances: every [|a - b| <= atol + rtol * |b|]. *)
Definition allclose (a b : list R) : bool :=
  forallb
    (fun '(x, y) =>
       if Rle_dec (Rabs (x - y)) (1 / 100000000 + 1 / 100000 * Rabs y)
       then true else false)
    (combine a b).

(** [__eq__(other)] *)
Definition __eq__ (self : TimeSeries) (other : pyobject) : bool :=
  if negb (is_similar self other) then false
  else
    match other with
    | Other => false
    | IsTimeSeries other =>
        if negb (allclose (amplitude self) (amplitude other)) then false
        else true
    end.

End Series.

(** The truncation of the exact quotient, which [int(a/b)] is whenever the
    rounding of [a/b] does not cross an integer. *)
Definition exact_int_quotient (a b : R) : Z :=
  let x := a / b in
  if Rle_dec 0 x then Int_part x else (- Int_part (- x))%Z.

(** A record of ten samples, one every second. *)
Definition ten_samples : Series.TimeSeries :=
  {| Series.amplitude := [0; 1; 2; 3; 4; 5; 6; 7; 8; 9]; Series.dt := 1 |}.

(** * Properties *)

(** ** Sums *)

Lemma fold_left_Rplus_acc (l : list R) (a : R) :
  fold_left Rplus l a = a + np_sum l.
Proof.
  unfold np_sum. revert a.
  induction l as [|x l IH]; intros a; simpl.
  - lra.
  - rewrite IH, (IH (0 + x)). lra.
Qed.

Lemma np_sum_cons (x : R) (l : list R) : np_sum (x :: l) = x + np_sum l.
Proof. unfold np_sum at 1. simpl. rewrite fold_left_Rplus_acc. lra. Qed.

Lemma np_sum_app (l1 l2 : list R) : np_sum (l1 ++ l2) = np_sum l1 + np_sum l2.
Proof.
  induction l1 as [|x l1 IH]; simpl.
  - unfold np_sum at 2. simpl. lra.
  - rewrite !np_sum_cons, IH. lra.
Qed.

Lemma big_sum_ext (n : nat) (f g : nat -> R) :
  (forall i, (i < n)%nat -> f i = g i) -> big_sum n f = big_sum n g.
Proof.
  induction n as [|n IH]; intros E; simpl.
  - reflexivity.
  - rewrite IH, (E n) by (intros; try apply E; lia). reflexivity.
Qed.

Lemma big_sum_scale (n : nat) (f : nat -> R) (c : R) :
  big_sum n (fun i => f i * c) = big_sum n f * c.
Proof. induction n as [|n IH]; simpl; [lra | rewrite IH; lra]. Qed.

Lemma big_sum_nonneg (n : nat) (f : nat -> R) :
  (forall i, (i < n)%nat -> 0 <= f i) -> 0 <= big_sum n f.
Proof.
  induction n as [|n IH]; intros P; simpl.
  - lra.
  - assert (0 <= big_sum n f) by (apply IH; intros; apply P; lia).
    assert (0 <= f n) by (apply P; lia). lra.
Qed.

(** A loop that adds [f x] for every [x] of [l] computes an indexed sum. *)
Lemma fold_left_big_sum {A : Type} (f : A -> R) (d : A) (l : list A) (a : R) :
  fold_left (fun acc x => acc + f x) l a
  = a + big_sum (length l) (fun i => f (nth i l d)).
Proof.
  revert a. induction l as [|x l IH] using rev_ind; intros a; simpl.
  - lra.
  - rewrite fold_left_app, length_app, Nat.add_1_r. simpl.
    rewrite IH, app_nth2, Nat.sub_diag by lia. simpl.
    rewrite (big_sum_ext _ (fun i => f (nth i (l ++ [x]) d))
                           (fun i => f (nth i l d))).
    + lra.
    + intros i Hi. now rewrite app_nth1.
Qed.

Lemma np_sum_big_sum (l : list R) :
  np_sum l = big_sum (length l) (fun i => nth i l 0).
Proof.
  unfold np_sum.
  change (fold_left Rplus l 0) with (fold_left (fun acc x => acc + x) l 0).
  rewrite (fold_left_big_sum (fun x => x) 0 l 0). lra.
Qed.

Lemma np_sum_map_big_sum (g : R -> R) (l : list R) :
  np_sum (map g l) = big_sum (length l) (fun i => g (nth i l 0)).
Proof.
  rewrite np_sum_big_sum, length_map.
  apply big_sum_ext. intros i Hi.
  rewrite (nth_indep _ 0 (g 0)) by (rewrite length_map; lia).
  apply map_nth.
Qed.

(** ** The loops of [_statistics] as indexed sums *)

Lemma fold_left_agree {A B : Type} (f g : A -> B -> A) (l : list B) (a : A) :
  (forall a x, f a x = g a x) -> fold_left f l a = fold_left g l a.
Proof.
  intros E. revert a.
  induction l as [|x l IH]; intros a; simpl; [reflexivity|].
  now rewrite E, IH.
Qed.

Lemma fold_left_pair {A : Type} (f g : A -> R) (l : list A) (a b : R) :
  fold_left (fun '(u, v) x => (u + f x, v + g x)) l (a, b)
  = (fold_left (fun u x => u + f x) l a, fold_left (fun v x => v + g x) l b).
Proof.
  revert a b. induction l as [|x l IH]; intros a b; simpl; [reflexivity|].
  apply IH.
Qed.

Lemma loop_last_snoc {A : Type} (l : list A) (x : A) :
  loop_last (l ++ [x]) = Some x.
Proof. unfold loop_last. now rewrite fold_left_app. Qed.

Lemma loop_last_nth {A : Type} (l : list A) (d : A) :
  l <> [] -> loop_last l = Some (nth (length l - 1) l d).
Proof.
  destruct l as [|x l] using rev_ind; [congruence|]. intros _.
  rewrite loop_last_snoc, length_app, Nat.add_1_r. simpl.
  now rewrite Nat.sub_0_r, app_nth2, Nat.sub_diag by lia.
Qed.

Lemma loop_last_nil {A : Type} : loop_last (@nil A) = None.
Proof. reflexivity. Qed.

Lemma mean_loop_big_sum (rows : list (list R * R)) :
  mean_loop rows
  = big_sum (length rows)
      (fun i => snd (nth i rows ([], 0)) * np_sum (fst (nth i rows ([], 0)))).
Proof.
  unfold mean_loop.
  rewrite (fold_left_agree _
             (fun acc x => acc + (fun p : list R * R => snd p * np_sum (fst p)) x)).
  - rewrite (fold_left_big_sum _ ([], 0)). lra.
  - now intros a [row w].
Qed.

Lemma stddev_loop_big_sum (mean : R) (rows : list (list R * R)) :
  stddev_loop mean rows
  = (big_sum (length rows)
       (fun i => snd (nth i rows ([], 0))
                 * np_sum (map (fun d => d * d)
                             (map (fun v => v - mean) (fst (nth i rows ([], 0)))))),
     big_sum (length rows)
       (fun i => snd (nth i rows ([], 0)) * snd (nth i rows ([], 0)))).
Proof.
  unfold stddev_loop.
  rewrite (fold_left_agree _
    (fun '(u, v) x =>
       (u + (fun p : list R * R =>
               snd p * np_sum (map (fun d => d * d)
                                 (map (fun v => v - mean) (fst p)))) x,
        v + (fun p : list R * R => snd p * snd p) x))).
  - rewrite fold_left_pair, !(fold_left_big_sum _ ([], 0)).
    f_equal; lra.
  - now intros [u v] [row w].
Qed.

Lemma norm_weights_length (weights : list R) :
  length (norm_weights weights) = length weights.
Proof. apply length_map. Qed.

Lemma norm_weights_nth (weights : list R) (i : nat) :
  (i < length weights)%nat ->
  nth i (norm_weights weights) 0
  = normalized_weight weights (length weights) i.
Proof.
  intros Hi. unfold norm_weights, normalized_weight.
  rewrite (nth_indep _ 0 ((fun w => w / np_sum weights) 0))
    by (rewrite length_map; lia).
  rewrite (map_nth (fun w => w / np_sum weights)).
  now rewrite np_sum_big_sum.
Qed.

Lemma rows_nth (values : list (list R)) (weights : list R) (i : nat) :
  length values = length weights -> (i < length weights)%nat ->
  nth i (combine values (norm_weights weights)) ([], 0)
  = (nth i values [], normalized_weight weights (length weights) i).
Proof.
  intros L Hi.
  rewrite combine_nth by (now rewrite norm_weights_length).
  now rewrite norm_weights_nth.
Qed.

Lemma rows_length (values : list (list R)) (weights : list R) :
  length values = length weights ->
  length (combine values (norm_weights weights)) = length weights.
Proof. intros L. rewrite length_combine, norm_weights_length. lia. Qed.

Lemma row_sum_entries (values : list (list R)) (N i : nat) :
  Forall (fun row => length row = N) values -> (i < length values)%nat ->
  np_sum (nth i values []) = big_sum N (fun j => entry values i j).
Proof.
  intros F Hi. rewrite np_sum_big_sum.
  rewrite Forall_forall in F. rewrite (F (nth i values [])) by now apply nth_In.
  reflexivity.
Qed.

Lemma row_squares_entries (values : list (list R)) (N i : nat) (mean : R) :
  Forall (fun row => length row = N) values -> (i < length values)%nat ->
  np_sum (map (fun d => d * d) (map (fun v => v - mean) (nth i values [])))
  = big_sum N (fun j => (entry values i j - mean) * (entry values i j - mean)).
Proof.
  intros F Hi. rewrite map_map.
  rewrite (np_sum_map_big_sum (fun v => (v - mean) * (v - mean))).
  rewrite Forall_forall in F. rewrite (F (nth i values [])) by now apply nth_In.
  reflexivity.
Qed.

(** What [_statistics] returns on an [M] by [N] matrix with [M] weights,
    [M] positive. *)
Lemma statistics_closed_form (values : list (list R)) (weights : list R)
  (M N : nat) :
  length values = M -> length weights = M -> (0 < M)%nat ->
  Forall (fun row => length row = N) values ->
  _statistics values weights
  = Ok (spec_mean values weights M N, pooled_stddev values weights M N).
Proof.
  intros LV LW HM F. rewrite <- LW in LV, HM. rewrite <- LW. clear LW M.
  assert (LR := rows_length values weights LV).
  unfold _statistics.
  rewrite (loop_last_nth _ ([], 0))
    by (intros E; rewrite E in LR; simpl in LR; lia).
  rewrite LR, rows_nth by lia. simpl fst.
  assert (LN : length (nth (length weights - 1) values []) = N).
  { rewrite Forall_forall in F. apply F, nth_In. lia. }
  rewrite LN.
  assert (EM : mean_loop (combine values (norm_weights weights)) / INR N
               = spec_mean values weights (length weights) N).
  { rewrite mean_loop_big_sum, LR. unfold spec_mean. f_equal.
    apply big_sum_ext. intros i Hi. rewrite rows_nth by lia. simpl.
    rewrite (row_sum_entries values N) by (assumption || lia). reflexivity. }
  rewrite EM, stddev_loop_big_sum, LR.
  unfold pooled_stddev, spec_numerator, spec_w2.
  match goal with
  | |- Ok (_, sqrt (?a / _ / (1 - ?b / _))) = Ok (_, sqrt (?a' / _ / (1 - ?b' / _))) =>
      assert (EA : a = a'); [| assert (EB : b = b'); [| now rewrite EA, EB]]
  end.
  - apply big_sum_ext. intros i Hi. rewrite rows_nth by lia. simpl.
    rewrite (row_squares_entries values N) by (assumption || lia). reflexivity.
  - apply big_sum_ext. intros i Hi.
    rewrite rows_nth by lia. reflexivity.
Qed.

(** ** Normalized weights *)





Lemma normalized_weight_sum (weights : list R) (M : nat) :
  big_sum M (fun k => nth k weights 0) <> 0 ->
  big_sum M (normalized_weight weights M) = 1.
Proof.
  intros NZ. unfold normalized_weight, Rdiv.
  rewrite (big_sum_scale M (fun i => nth i weights 0)). now field.
Qed.

Lemma positive_sum_positive_length (weights : list R) (M : nat) :
  0 < big_sum M (fun k => nth k weights 0) -> (0 < M)%nat.
Proof. destruct M; simpl; [lra | lia]. Qed.

(** ** The statistics engine *)

(** C2: on an [M] by [N] matrix and [M] weights of positive sum,
    [_statistics] returns as mean the sum over locations of the normalized
    weight times the sum over realizations of the value, divided by [N];
    the normalized weights are the weights over their sum and add up
    to 1. *)
Theorem statistics_weighted_mean
  (values : list (list R)) (weights : list R) (M N : nat) :
  length values = M ->
  Forall (fun row => length row = N) values ->
  length weights = M ->
  0 < big_sum M (fun k => nth k weights 0) ->
  big_sum M (normalized_weight weights M) = 1 /\
  exists stddev,
    _statistics values weights = Ok (spec_mean values weights M N, stddev).
Proof.
  intros LV F LW P. split.
  - apply normalized_weight_sum. lra.
  - eexists. apply statistics_closed_form; try assumption.
    now apply (positive_sum_positive_length weights).
Qed.

Lemma statistics_weighted_mean_witness :
  big_sum 2 (normalized_weight [1; 3] 2) = 1 /\
  exists stddev,
    _statistics [[1; 3]; [2; 4]] [1; 3]
    = Ok (spec_mean [[1; 3]; [2; 4]] [1; 3] 2 2, stddev).
Proof.
  apply (statistics_weighted_mean [[1; 3]; [2; 4]] [1; 3] 2 2).
  - reflexivity.
  - repeat constructor.
  - reflexivity.
  - simpl. lra.
Defined.

(** C1, as the code has it: on an [M] by [N] matrix and [M] weights of
    positive sum, the standard deviation [_statistics] returns is the square
    root of the weighted sum of squared deviations divided by [N] and then
    by [1 - (sum of squared normalized weights) / N]: the weight-squared sum
    is itself divided by the number of realizations. *)
Theorem statistics_weighted_stddev
  (values : list (list R)) (weights : list R) (M N : nat) :
  length values = M ->
  Forall (fun row => length row = N) values ->
  length weights = M ->
  0 < big_sum M (fun k => nth k weights 0) ->
  exists mean,
    _statistics values weights = Ok (mean, pooled_stddev values weights M N).
Proof.
  intros LV F LW P. eexists.
  apply statistics_closed_form; try assumption.
  now apply (positive_sum_positive_length weights).
Qed.

Lemma statistics_weighted_stddev_witness :
  exists mean,
    _statistics [[0; 2]; [0; 2]] [1; 1]
    = Ok (mean, pooled_stddev [[0; 2]; [0; 2]] [1; 1] 2 2).
Proof.
  apply (statistics_weighted_stddev [[0; 2]; [0; 2]] [1; 1] 2 2).
  - reflexivity.
  - repeat constructor.
  - reflexivity.
  - simpl. lra.
Defined.

Lemma two_by_two_numerator :
  spec_numerator [[0; 2]; [0; 2]] [1; 1] 2 2 = 1.
Proof.
  unfold spec_numerator, spec_mean, normalized_weight, entry. simpl. field.
Qed.

Lemma two_by_two_w2 : spec_w2 [1; 1] 2 = 1 / 2.
Proof. unfold spec_w2, normalized_weight. simpl. field. Qed.

(** C1, as stated, fails on the 2 by 2 matrix [[0, 2], [0, 2]] with weights
    [1, 1]: the code returns [sqrt (4/3)], the stated formula gives
    [sqrt 2]. *)
Lemma statistics_stddev_not_unpooled :
  length [[0; 2]; [0; 2]] = 2%nat /\
  Forall (fun row => length row = 2%nat) [[0; 2]; [0; 2]] /\
  length [1; 1] = 2%nat /\
  0 < big_sum 2 (fun k => nth k [1; 1] 0) /\
  exists mean stddev,
    _statistics [[0; 2]; [0; 2]] [1; 1] = Ok (mean, stddev) /\
    stddev = sqrt (4 / 3) /\
    spec_stddev [[0; 2]; [0; 2]] [1; 1] 2 2 = sqrt 2 /\
    stddev <> spec_stddev [[0; 2]; [0; 2]] [1; 1] 2 2.
Proof.
  split; [reflexivity|]. split; [repeat constructor|].
  split; [reflexivity|]. split; [simpl; lra|].
  exists (spec_mean [[0; 2]; [0; 2]] [1; 1] 2 2),
         (pooled_stddev [[0; 2]; [0; 2]] [1; 1] 2 2).
  assert (EP : pooled_stddev [[0; 2]; [0; 2]] [1; 1] 2 2 = sqrt (4 / 3)).
  { unfold pooled_stddev. rewrite two_by_two_numerator, two_by_two_w2.
    f_equal. simpl. field. }
  assert (ES : spec_stddev [[0; 2]; [0; 2]] [1; 1] 2 2 = sqrt 2).
  { unfold spec_stddev. rewrite two_by_two_numerator, two_by_two_w2.
    f_equal. field. }
  split; [|split; [exact EP|split; [exact ES|]]].
  - apply statistics_closed_form; try reflexivity; [lia | repeat constructor].
  - rewrite EP, ES. intros E. apply sqrt_inj in E; lra.
Qed.



(** ** The Monte Carlo driver *)

Lemma recognized_iff (distribution : string) :
  recognized distribution = true
  <-> distribution = "normal"%string \/ distribution = "lognormal"%string.
Proof.
  unfold recognized. simpl. rewrite !orb_true_iff, !String.eqb_eq.
  intuition discriminate.
Qed.

Lemma not_recognized_iff (distribution : string) :
  recognized distribution = false
  <-> ~ (distribution = "normal"%string \/ distribution = "lognormal"%string).
Proof.
  rewrite <- recognized_iff.
  destruct (recognized distribution); split; intros E;
    congruence || (exfalso; now apply E).
Qed.

(** [_statistics] raises nothing but [UnboundLocalError]. *)
Lemma statistics_raises (values : list (list R)) (weights : list R) (e : exn) :
  _statistics values weights = Raise e -> e = UnboundLocalError "row_value".
Proof.
  unfold _statistics.
  destruct (loop_last _) as [[row w]|].
  - destruct (stddev_loop _ _). discriminate.
  - now intros [= <-].
Qed.

Section MonteCarlo.

Context {G : Type} `{Generator G}.

Lemma rng_normal_raises (g g' : G) (mean stddev : R) (n : nat) (e : exn) :
  rng_normal g mean stddev n = (Raise e, g') -> e = ValueError "scale < 0".
Proof.
  unfold rng_normal. destruct (Rlt_dec stddev 0).
  - now intros [= <- _].
  - destruct (draw_normal _ _ _ _). discriminate.
Qed.

Lemma fill_rows_raises (g g' : G) (n r : nat) (params : list (R * R))
  (a : list (list R)) (e : exn) :
  fill_rows g n r params a = (Raise e, g') -> e = ValueError "scale < 0".
Proof.
  revert g r a. induction params as [|[m s] rest IH]; intros g r a; simpl.
  - discriminate.
  - destruct (rng_normal g m s n) as [[xs|e'] g1] eqn:E.
    + apply IH.
    + intros [= <- _]. eapply rng_normal_raises, E.
Qed.

Lemma set_row_spec (r : nat) (xs : list R) (a : list (list R)) :
  (r < length a)%nat ->
  set_row r xs a = firstn r a ++ xs :: skipn (S r) a.
Proof.
  revert r. induction a as [|row a IH]; intros r Hr; simpl in *; [lia|].
  destruct r; simpl; [reflexivity|]. f_equal. apply IH. lia.
Qed.

Lemma firstn_snoc {A : Type} (pre : list A) (x : A) (post : list A) (r : nat) :
  length pre = r -> firstn (S r) (pre ++ x :: post) = pre ++ [x].
Proof.
  intros <-. induction pre as [|y pre IH]; simpl; [reflexivity|].
  f_equal. exact IH.
Qed.

Lemma skipn_past {A : Type} (pre : list A) (x : A) (post : list A) (r k : nat) :
  length pre = r -> skipn (S r + k) (pre ++ x :: post) = skipn k post.
Proof.
  intros <-. induction pre as [|y pre IH]; simpl; [reflexivity|].
  exact IH.
Qed.

Lemma set_row_length (r : nat) (xs : list R) (a : list (list R)) :
  length (set_row r xs a) = length a.
Proof.
  revert r. induction a as [|row a IH]; intros r; simpl; [reflexivity|].
  destruct r; simpl; [reflexivity|]. now rewrite IH.
Qed.

(** The loop overwrites rows [r] to [r + length params - 1] with the rows
    drawn and leaves the others alone. *)
Lemma fill_rows_draw_rows (g : G) (n r : nat) (params : list (R * R))
  (a : list (list R)) :
  (r + length params <= length a)%nat ->
  fill_rows g n r params a
  = match draw_rows g n params with
    | (Ok rows, g') =>
        (Ok (firstn r a ++ rows ++ skipn (r + length params) a), g')
    | (Raise e, g') => (Raise e, g')
    end.
Proof.
  revert g r a. induction params as [|[m s] rest IH]; intros g r a L; simpl in *.
  - now rewrite Nat.add_0_r, firstn_skipn.
  - destruct (rng_normal g m s n) as [[xs|e] g1]; [|reflexivity].
    rewrite IH by (rewrite set_row_length; lia).
    destruct (draw_rows g1 n rest) as [[rows|e] g2]; [|reflexivity].
    rewrite set_row_spec by lia.
    assert (LF : length (firstn r a) = r) by (rewrite length_firstn; lia).
    rewrite (firstn_snoc (firstn r a) xs (skipn (S r) a) r LF).
    rewrite (skipn_past (firstn r a) xs (skipn (S r) a) r (length rest) LF).
    rewrite skipn_skipn, <- !app_assoc.
    replace (length rest + S r)%nat with (r + S (length rest))%nat by lia.
    reflexivity.
Qed.

Lemma np_empty_length (memory : nat -> nat -> R) (m n : nat) :
  length (np_empty memory m n) = m.
Proof. unfold np_empty. now rewrite length_map, length_seq. Qed.

(** With at least as many standard deviations as means, every row of the
    array is overwritten: the content of the allocated memory is lost. *)
Lemma fill_rows_from_empty (g : G) (n : nat) (memory : nat -> nat -> R)
  (means stddevs : list R) :
  (length means <= length stddevs)%nat ->
  fill_rows g n 0 (combine means stddevs) (np_empty memory (length means) n)
  = draw_rows g n (combine means stddevs).
Proof.
  intros L.
  assert (LC : length (combine means stddevs) = length means)
    by (rewrite length_combine; lia).
  rewrite fill_rows_draw_rows by (rewrite np_empty_length; lia).
  destruct (draw_rows _ _ _) as [[rows|e] g']; [|reflexivity].
  simpl. rewrite skipn_all2 by (rewrite np_empty_length; lia).
  now rewrite app_nil_r.
Qed.

End MonteCarlo.

Section MonteCarloClaims.

Context {G : Type} `{Generator G}.

Variables (fresh : G) (memory : nat -> nat -> R).
Variables (generator_means generator_stddevs generator_weights : list R).
Variables (n_realizations : nat).

(** An unrecognized kind of the generators is reported before anything is
    drawn. *)
Lemma montecarlo_rejects_generators (dg ds : string) (rng : option G) :
  recognized dg = false ->
  montecarlo_fn fresh memory generator_means generator_stddevs
                generator_weights dg ds n_realizations rng
  = (Raise (NotImplementedError
              ("dist_generators = " ++ dg ++ " not recognized.")),
     generator_used fresh rng).
Proof. intros E. unfold montecarlo_fn. now rewrite E. Qed.

Lemma montecarlo_rejects_spatial (dg ds : string) (rng : option G) :
  recognized dg = true -> recognized ds = false ->
  montecarlo_fn fresh memory generator_means generator_stddevs
                generator_weights dg ds n_realizations rng
  = (Raise (NotImplementedError
              ("dist_spatial = " ++ ds ++ " not recognized.")),
     generator_used fresh rng).
Proof. intros E1 E2. unfold montecarlo_fn. now rewrite E1, E2. Qed.

(** With both kinds recognized, the call goes on to draw, transform and
    weight; what it can still raise is not [NotImplementedError]. *)
Lemma montecarlo_accepts (dg ds : string) (rng : option G) (e : exn) (g' : G) :
  recognized dg = true -> recognized ds = true ->
  montecarlo_fn fresh memory generator_means generator_stddevs
                generator_weights dg ds n_realizations rng = (Raise e, g') ->
  e = ValueError "scale < 0" \/ e = UnboundLocalError "row_value".
Proof.
  intros E1 E2. unfold montecarlo_fn. rewrite E1, E2. simpl.
  destruct (fill_rows _ _ _ _ _) as [[raw|e1] g1] eqn:F.
  - destruct (_statistics _ _) as [[m sd]|e2] eqn:S.
    + destruct (ds =? "lognormal")%string; discriminate.
    + intros [= <- _]. right. eapply statistics_raises, S.
  - intros [= <- _]. left. eapply fill_rows_raises, F.
Qed.

Lemma montecarlo_unsupported_iff (dg ds : string) (rng : option G) :
  (exists msg g',
      montecarlo_fn fresh memory generator_means generator_stddevs
                    generator_weights dg ds n_realizations rng
      = (Raise (NotImplementedError msg), g'))
  <-> ~ (dg = "normal"%string \/ dg = "lognormal"%string)
      \/ ~ (ds = "normal"%string \/ ds = "lognormal"%string).
Proof.
  rewrite <- !not_recognized_iff. split.
  - intros (msg & g' & E).
    destruct (recognized dg) eqn:E1; [|now left].
    destruct (recognized ds) eqn:E2; [|now right].
    destruct (montecarlo_accepts dg ds rng _ _ E1 E2 E); discriminate.
  - intros [E1|E2].
    + do 2 eexists. now apply montecarlo_rejects_generators.
    + destruct (recognized dg) eqn:E1; do 2 eexists.
      * now apply montecarlo_rejects_spatial.
      * now apply montecarlo_rejects_generators.
Qed.

End MonteCarloClaims.

(** C9: [montecarlo_fn] checks both kinds before it draws: when it raises
    the unsupported-configuration error, the supplied generator is in the
    state it was given in, and the call yields the error and no matrix. *)
Theorem montecarlo_error_is_atomic {G : Type} `{Generator G}
  (fresh : G) (memory : nat -> nat -> R)
  (generator_means generator_stddevs generator_weights : list R)
  (dg ds : string) (n_realizations : nat) (g g' : G) (msg : string) :
  montecarlo_fn fresh memory generator_means generator_stddevs
                generator_weights dg ds n_realizations (Some g)
  = (Raise (NotImplementedError msg), g') ->
  g' = g /\
  (recognized dg = false \/ recognized ds = false) /\
  forall means stddevs weights n,
    montecarlo_fn fresh memory means stddevs weights dg ds n (Some g)
    = (Raise (NotImplementedError msg), g).
Proof.
  intros E.
  destruct (recognized dg) eqn:E1.
  - destruct (recognized ds) eqn:E2.
    + destruct (montecarlo_accepts _ _ _ _ _ _ _ _ _ _ _ E1 E2 E); discriminate.
    + rewrite montecarlo_rejects_spatial in E by assumption.
      injection E as E3 E4. subst g'. rewrite <- E3.
      repeat split; [now right|]. intros.
      now apply montecarlo_rejects_spatial.
  - rewrite montecarlo_rejects_generators in E by assumption.
    injection E as E3 E4. subst g'. rewrite <- E3.
    repeat split; [now left|]. intros.
    now apply montecarlo_rejects_generators.
Qed.

Lemma montecarlo_error_is_atomic_witness :
  (7%nat = 7%nat) /\
  (recognized "uniform" = false \/ recognized "normal" = false) /\
  forall means stddevs weights n,
    montecarlo_fn 0%nat (fun _ _ => 0) means stddevs weights
                  "uniform" "normal" n (Some 7%nat)
    = (Raise (NotImplementedError "dist_generators = uniform not recognized."),
       7%nat).
Proof.
  apply (montecarlo_error_is_atomic 0%nat (fun _ _ => 0) [1] [1] [1]
           "uniform" "normal" 3 7%nat 7%nat
           "dist_generators = uniform not recognized.").
  reflexivity.
Defined.

(** C8: two calls of [montecarlo_fn] with the same arguments and generators
    in the same state return the same triple and leave the generators in the
    same state, whatever the allocated memory holds and whatever fresh
    generator the system would have provided.  The arrays are parallel: no
    mean is without a standard deviation. *)
Theorem montecarlo_deterministic {G : Type} `{Generator G}
  (fresh1 fresh2 : G) (memory1 memory2 : nat -> nat -> R)
  (generator_means generator_stddevs generator_weights : list R)
  (dg ds : string) (n_realizations : nat) (g : G) :
  (length generator_means <= length generator_stddevs)%nat ->
  montecarlo_fn fresh1 memory1 generator_means generator_stddevs
                generator_weights dg ds n_realizations (Some g)
  = montecarlo_fn fresh2 memory2 generator_means generator_stddevs
                  generator_weights dg ds n_realizations (Some g).
Proof.
  intros L. unfold montecarlo_fn.
  now rewrite !fill_rows_from_empty by assumption.
Qed.

Lemma montecarlo_deterministic_witness :
  montecarlo_fn 0%nat (fun _ _ => 0) [10; 20] [2; 3] [1; 1]
                "normal" "lognormal" 4 (Some 5%nat)
  = montecarlo_fn 9%nat (fun _ _ => 1) [10; 20] [2; 3] [1; 1]
                  "normal" "lognormal" 4 (Some 5%nat).
Proof.
  apply (montecarlo_deterministic 0%nat 9%nat (fun _ _ => 0) (fun _ _ => 1)
           [10; 20] [2; 3] [1; 1] "normal" "lognormal" 4 5%nat).
  simpl. lia.
Defined.

(** A mean without a standard deviation is outside the contract of the
    call: its row of the array is never written and keeps what the
    allocated memory held, which the result then shows. *)
Remark montecarlo_unpaired_mean_reads_memory :
  montecarlo_fn 0%nat (fun _ _ => 0) [0; 0] [1] [1; 1] "normal" "normal" 1
                (Some 0%nat)
  <> montecarlo_fn 0%nat (fun _ _ => 1) [0; 0] [1] [1; 1] "normal" "normal" 1
                   (Some 0%nat).
Proof.
  unfold montecarlo_fn.
  cbn [recognized existsb String.eqb Ascii.eqb Bool.eqb negb orb andb
       combine fill_rows length np_empty seq map].
  unfold rng_normal. destruct (Rlt_dec 1 0); [lra|].
  cbn [draw_normal counter_generator counter_draw seq map set_row Nat.add].
  rewrite !(statistics_closed_form _ [1; 1] 2 1)
    by (reflexivity || lia || (repeat constructor)).
  intros E. injection E as _ _ E. lra.
Qed.

(** C3: with [raw] the matrix of samples as drawn, [montecarlo_fn] weights
    [exp raw] for lognormal generators and normal spatial statistics,
    [ln raw] for normal generators and lognormal spatial statistics, and
    [raw] itself when the kinds agree; for lognormal spatial statistics it
    returns the exponential of the mean and of every weighted realization,
    and the standard deviation as [_statistics] computed it. *)
Theorem montecarlo_transforms {G : Type} `{Generator G}
  (fresh : G) (memory : nat -> nat -> R)
  (generator_means generator_stddevs generator_weights : list R)
  (dg ds : string) (n_realizations : nat) (rng : option G)
  (raw : list (list R)) (g' : G) :
  fill_rows (generator_used fresh rng) n_realizations 0
            (combine generator_means generator_stddevs)
            (np_empty memory (length generator_means) n_realizations)
  = (Ok raw, g') ->
  let call :=
    montecarlo_fn fresh memory generator_means generator_stddevs
                  generator_weights dg ds n_realizations rng in
  (dg = "lognormal"%string -> ds = "normal"%string ->
   call = (match _statistics (map (map exp) raw) generator_weights with
           | Ok (mean, stddev) => Ok (mean, stddev, map (map exp) raw)
           | Raise e => Raise e
           end, g')) /\
  (dg = "normal"%string -> ds = "lognormal"%string ->
   call = (match _statistics (map (map ln) raw) generator_weights with
           | Ok (mean, stddev) =>
               Ok (exp mean, stddev, map (map exp) (map (map ln) raw))
           | Raise e => Raise e
           end, g')) /\
  (dg = "normal"%string -> ds = "normal"%string ->
   call = (match _statistics raw generator_weights with
           | Ok (mean, stddev) => Ok (mean, stddev, raw)
           | Raise e => Raise e
           end, g')) /\
  (dg = "lognormal"%string -> ds = "lognormal"%string ->
   call = (match _statistics raw generator_weights with
           | Ok (mean, stddev) => Ok (exp mean, stddev, map (map exp) raw)
           | Raise e => Raise e
           end, g')).
Proof.
  intros F call. subst call. unfold montecarlo_fn.
  fold (generator_used fresh rng). 
  repeat split; intros -> ->; cbn [recognized existsb String.eqb Ascii.eqb
    Bool.eqb negb orb andb]; rewrite F;
    destruct (_statistics _ _) as [[m sd]|e]; reflexivity.
Qed.

Lemma montecarlo_transforms_witness :
  let raw := [[0 + 1 * INR 0; 0 + 1 * INR 1]] in
  let call :=
    montecarlo_fn 0%nat (fun _ _ => 0) [0] [1] [1] "normal" "lognormal" 2
                  (Some 0%nat) in
  ("normal"%string = "lognormal"%string -> "lognormal"%string = "normal"%string ->
   call = (match _statistics (map (map exp) raw) [1] with
           | Ok (mean, stddev) => Ok (mean, stddev, map (map exp) raw)
           | Raise e => Raise e
           end, 2%nat)) /\
  ("normal"%string = "normal"%string -> "lognormal"%string = "lognormal"%string ->
   call = (match _statistics (map (map ln) raw) [1] with
           | Ok (mean, stddev) =>
               Ok (exp mean, stddev, map (map exp) (map (map ln) raw))
           | Raise e => Raise e
           end, 2%nat)) /\
  ("normal"%string = "normal"%string -> "lognormal"%string = "normal"%string ->
   call = (match _statistics raw [1] with
           | Ok (mean, stddev) => Ok (mean, stddev, raw)
           | Raise e => Raise e
           end, 2%nat)) /\
  ("normal"%string = "lognormal"%string ->
   "lognormal"%string = "lognormal"%string ->
   call = (match _statistics raw [1] with
           | Ok (mean, stddev) => Ok (exp mean, stddev, map (map exp) raw)
           | Raise e => Raise e
           end, 2%nat)).
Proof.
  apply (montecarlo_transforms 0%nat (fun _ _ => 0) [0] [1] [1]
           "normal" "lognormal" 2 (Some 0%nat)
           [[0 + 1 * INR 0; 0 + 1 * INR 1]] 2%nat).
  cbn [fill_rows combine generator_used]. unfold rng_normal.
  destruct (Rlt_dec 1 0); [lra | reflexivity].
Defined.

(** ** Culling *)

Section Culling.

Context {Mask : Type} `{Collaborators Mask}.

Lemma filter_positions_shift {A : Type} (f : A -> bool) (x d : A)
  (rest : list A) (index len : nat) :
  filter (fun i => f (nth (i - index) (x :: rest) d)) (seq (S index) len)
  = filter (fun i => f (nth (i - S index) rest d)) (seq (S index) len).
Proof.
  apply filter_ext_in. intros i Hi. apply in_seq in Hi.
  replace (i - index)%nat with (S (i - S index)) by lia. reflexivity.
Qed.

Lemma cull_loop_spec (mask : Mask) (index : nat) (coords : list point) :
  cull_loop mask index coords
  = (filter (contains mask) coords,
     filter (fun i => contains mask (nth (i - index) coords (0, 0)))
            (seq index (length coords)),
     filter (fun p => negb (contains mask p)) coords).
Proof.
  revert index. induction coords as [|[x y] rest IH]; intros index.
  - reflexivity.
  - cbn [cull_loop length seq filter]. rewrite IH.
    rewrite (filter_positions_shift (contains mask)).
    rewrite Nat.sub_diag. cbn [nth].
    destruct (contains mask (x, y)); reflexivity.
Qed.

Lemma cull_points_spec (self : HvsrSpatial) (mask : Mask) :
  _cull_points self mask
  = (filter (contains mask) (coordinates self),
     filter (fun i => contains mask (nth i (coordinates self) (0, 0)))
            (seq 0 (length (coordinates self))),
     filter (fun p => negb (contains mask p)) (coordinates self)).
Proof.
  unfold _cull_points. rewrite cull_loop_spec.
  do 2 f_equal. apply filter_ext. intros i. now rewrite Nat.sub_0_r.
Qed.

Lemma filter_seq_increasing (f : nat -> bool) (start len : nat) :
  StronglySorted lt (filter f (seq start len)).
Proof.
  revert start. induction len as [|len IH]; intros start; simpl.
  - constructor.
  - destruct (f start); [|apply IH].
    constructor; [apply IH|].
    apply Forall_forall. intros i Hi.
    apply filter_In in Hi. destruct Hi as [Hi _]. apply in_seq in Hi. lia.
Qed.

(** Reading the coordinates at the kept positions gives the kept points. *)
Lemma filter_by_position (f : point -> bool) (l : list point) (start : nat) :
  map (fun i => nth (i - start) l (0, 0))
      (filter (fun i => f (nth (i - start) l (0, 0))) (seq start (length l)))
  = filter f l.
Proof.
  revert start. induction l as [|p l IH]; intros start.
  - reflexivity.
  - cbn [length seq filter].
    rewrite (filter_positions_shift f).
    assert (E : map (fun i => nth (i - start) (p :: l) (0, 0))
                    (filter (fun i => f (nth (i - S start) l (0, 0)))
                            (seq (S start) (length l)))
                = filter f l).
    { rewrite <- (IH (S start)). apply map_ext_in. intros i Hi.
      apply filter_In in Hi. destruct Hi as [Hi _]. apply in_seq in Hi.
      replace (i - start)%nat with (S (i - S start)) by lia. reflexivity. }
    rewrite Nat.sub_diag. change (nth 0 (p :: l) (0, 0)) with p.
    destruct (f p); cbn [map]; rewrite E; [|reflexivity].
    now rewrite Nat.sub_diag.
Qed.

End Culling.

(** ** Sorting by angle *)

Lemma insert_by_angle_perm (x : R * nat) (l : list (R * nat)) :
  Permutation (insert_by_angle x l) (x :: l).
Proof.
  induction l as [|y l IH]; simpl.
  - reflexivity.
  - destruct (Rlt_dec (fst x) (fst y)); [reflexivity|].
    rewrite IH. apply perm_swap.
Qed.

Lemma insert_by_angle_sorted (x : R * nat) (l : list (R * nat)) :
  StronglySorted angle_le l -> StronglySorted angle_le (insert_by_angle x l).
Proof.
  induction 1 as [|y l S IH F]; simpl.
  - repeat constructor.
  - destruct (Rlt_dec (fst x) (fst y)) as [L|L].
    + constructor; [now constructor|].
      constructor; [unfold angle_le; lra|].
      eapply Forall_impl; [|exact F]. unfold angle_le. intros z Hz. lra.
    + constructor; [exact IH|].
      rewrite insert_by_angle_perm. constructor; [unfold angle_le; lra|exact F].
Qed.

Lemma sort_by_angle_acc (l acc : list (R * nat)) :
  StronglySorted angle_le acc ->
  StronglySorted angle_le (fold_left (fun sorted x => insert_by_angle x sorted) l acc)
  /\ Permutation (fold_left (fun sorted x => insert_by_angle x sorted) l acc)
                 (l ++ acc).
Proof.
  revert acc. induction l as [|x l IH]; intros acc S; simpl.
  - split; [exact S | reflexivity].
  - destruct (IH (insert_by_angle x acc) (insert_by_angle_sorted x acc S))
      as [S' P'].
    split; [exact S'|]. rewrite P', insert_by_angle_perm.
    now rewrite Permutation_middle.
Qed.

Lemma sort_by_angle_sorted (l : list (R * nat)) :
  StronglySorted angle_le (sort_by_angle l).
Proof. apply sort_by_angle_acc. constructor. Qed.

Lemma sort_by_angle_perm (l : list (R * nat)) :
  Permutation (sort_by_angle l) l.
Proof.
  unfold sort_by_angle.
  destruct (sort_by_angle_acc l []) as [_ P]; [constructor|].
  now rewrite app_nil_r in P.
Qed.

Lemma combine_seq_snd (angles : list R) (start : nat) :
  map snd (combine angles (seq start (length angles)))
  = seq start (length angles).
Proof.
  revert start. induction angles as [|a l IH]; intros start; simpl.
  - reflexivity.
  - now rewrite IH.
Qed.

Lemma combine_seq_entries (angles : list R) (start : nat) (p : R * nat) :
  In p (combine angles (seq start (length angles))) ->
  nth (snd p - start) angles 0 = fst p.
Proof.
  destruct p as [ang i]. simpl.
  revert start. induction angles as [|a l IH]; intros start; simpl.
  - contradiction.
  - intros [[= <- <-]|I].
    + now rewrite Nat.sub_diag.
    + assert (B := in_combine_r _ _ _ _ I). apply in_seq in B.
      specialize (IH _ I).
      replace (i - start)%nat with (S (i - S start)) by lia.
      exact IH.
Qed.

(** [argsort] returns a permutation of the positions. *)
Lemma argsort_perm (angles : list R) :
  Permutation (argsort angles) (seq 0 (length angles)).
Proof.
  unfold argsort. rewrite sort_by_angle_perm. now rewrite combine_seq_snd.
Qed.

(** Read in the order [argsort] returns, the angles never decrease. *)
Lemma argsort_sorted (angles : list R) :
  StronglySorted Rle (map (fun i => nth i angles 0) (argsort angles)).
Proof.
  unfold argsort. rewrite map_map.
  assert (In_all : forall p, In p (sort_by_angle (combine angles (seq 0 (length angles)))) ->
                             nth (snd p) angles 0 = fst p).
  { intros p I. rewrite <- (combine_seq_entries angles 0 p).
    - now rewrite Nat.sub_0_r.
    - eapply Permutation_in; [apply sort_by_angle_perm | exact I]. }
  assert (S := sort_by_angle_sorted (combine angles (seq 0 (length angles)))).
  induction S as [|p l S IH F]; simpl; constructor.
  - apply IH. intros q I. apply In_all. now right.
  - apply Forall_map. rewrite Forall_forall in *. intros q I.
    rewrite (In_all p), (In_all q) by (simpl; auto). now apply F.
Qed.

(** ** Reconstruction of one region *)

Lemma bind_ok {A B : Type} (r : result A) (k : A -> result B) (b : B) :
  bind r k = Ok b -> exists a, r = Ok a /\ k a = Ok b.
Proof. destruct r as [a|e]; simpl; [eauto | discriminate]. Qed.

Lemma mean_of_two (P1 P2 : point) :
  mean_axis0 [P1; P2] = pdiv (padd P1 P2) 2.
Proof.
  unfold mean_axis0, pdiv, padd, np_sum. simpl. f_equal; field.
Qed.

Lemma far_point_formula (vor : Voronoi) (center : point) (radius : R)
  (p1 p2 v2 : Z) (P1 P2 V : point) :
  getitem (points vor) p1 = Ok P1 ->
  getitem (points vor) p2 = Ok P2 ->
  getitem (vertices vor) v2 = Ok V ->
  far_point vor center radius p1 p2 v2
  = Ok (spec_far_point P1 P2 V center radius).
Proof.
  intros E1 E2 E3. unfold far_point. rewrite E2, E1, E3. simpl.
  rewrite mean_of_two. unfold spec_far_point, padd, pmul, pscale. simpl.
  do 2 f_equal; ring.
Qed.

Lemma far_point_synthesized (vor : Voronoi) (center : point) (radius : R)
  (p1 : Z) (ridge : Z * Z * Z) (far : point) :
  far_point vor center radius p1 (neighbor ridge) (finite_vertex ridge) = Ok far ->
  synthesized vor center radius p1 ridge far.
Proof.
  intros E0. assert (E := E0). unfold far_point in E.
  apply bind_ok in E. destruct E as (P2 & E2 & E).
  apply bind_ok in E. destruct E as (P1 & E1 & E).
  apply bind_ok in E. destruct E as (V & E3 & _).
  exists P1, P2, V. repeat split; try assumption.
  rewrite (far_point_formula vor center radius p1 _ _ P1 P2 V E1 E2 E3) in E0.
  congruence.
Qed.

(** The ridge loop appends one synthesized vertex per infinite ridge, in
    the order of the ridges, and its position to the region. *)
Lemma ridge_loop_spec (vor : Voronoi) (center : point) (radius : R) (p1 : Z)
  (ridges : list (Z * Z * Z)) (new_region : list Z) (new_vertices : list point) :
  ridge_loop vor center radius p1 ridges new_region new_vertices
  = (fars <- for_each (fun ridge => far_point vor center radius p1
                                      (neighbor ridge) (finite_vertex ridge))
                      (filter ridge_is_infinite ridges) ;;
     Ok (new_region
         ++ map Z.of_nat (seq (length new_vertices) (length fars)),
         new_vertices ++ fars)).
Proof.
  revert new_region new_vertices.
  induction ridges as [|[[p2 v1] v2] rest IH]; intros new_region new_vertices.
  - simpl. now rewrite !app_nil_r.
  - cbn [ridge_loop filter ridge_is_infinite].
    destruct (v2 <? 0)%Z eqn:E2.
    + rewrite orb_true_r.
      assert (E : (0 <=? v2)%Z = false) by lia. rewrite E.
      cbn [for_each neighbor finite_vertex]. rewrite E2.
      destruct (far_point vor center radius p1 p2 v1) as [far|e]; [|reflexivity].
      cbn [bind]. rewrite IH.
      destruct (for_each _ _) as [fars|e]; [|reflexivity].
      cbn [bind length seq map]. rewrite length_app, Nat.add_1_r.
      now rewrite <- !app_assoc.
    + rewrite orb_false_r. destruct (0 <=? v1)%Z eqn:E1.
      * assert (E : (v1 <? 0)%Z = false) by lia. rewrite E. apply IH.
      * assert (E : (v1 <? 0)%Z = true) by lia. rewrite E.
        cbn [for_each neighbor finite_vertex]. rewrite E2.
        destruct (far_point vor center radius p1 p2 v2) as [far|e]; [|reflexivity].
        cbn [bind]. rewrite IH.
        destruct (for_each _ _) as [fars|e]; [|reflexivity].
        cbn [bind length seq map]. rewrite length_app, Nat.add_1_r.
        now rewrite <- !app_assoc.
Qed.

Lemma for_each_length {A B : Type} (f : A -> result B) (l : list A)
  (out : list B) :
  for_each f l = Ok out -> length out = length l.
Proof.
  revert out. induction l as [|x l IH]; intros out; simpl.
  - now intros [= <-].
  - destruct (f x) as [y|e]; [|discriminate]. simpl.
    destruct (for_each f l) as [ys|e]; [|discriminate]. simpl.
    intros [= <-]. simpl. f_equal. now apply IH.
Qed.

Lemma for_each_Forall2 {A B : Type} (f : A -> result B) (l : list A)
  (out : list B) :
  for_each f l = Ok out -> Forall2 (fun x y => f x = Ok y) l out.
Proof.
  revert out. induction l as [|x l IH]; intros out; simpl.
  - intros [= <-]. constructor.
  - destruct (f x) as [y|e] eqn:E; [|discriminate]. simpl.
    destruct (for_each f l) as [ys|e]; [|discriminate]. simpl.
    intros [= <-]. constructor; [exact E | now apply IH].
Qed.

Lemma for_each_ext_in {A B : Type} (f g : A -> result B) (l : list A) :
  (forall x, In x l -> f x = g x) -> for_each f l = for_each g l.
Proof.
  induction l as [|x l IH]; intros E; simpl; [reflexivity|].
  rewrite (E x) by now left.
  rewrite IH by (intros; apply E; now right). reflexivity.
Qed.

(** [sort_region] orders the region by polar angle about the centroid. *)
Lemma sort_region_spec (collected : list Z) (all_vertices : list point)
  (out_region : list Z) :
  sort_region collected all_vertices = Ok out_region ->
  ordered_by_angle all_vertices collected out_region.
Proof.
  unfold sort_region. intros E.
  apply bind_ok in E. destruct E as (vs & EV & E).
  assert (L := for_each_length _ _ _ EV).
  exists vs, (argsort (polar_angles vs)).
  assert (LA : length (polar_angles vs) = length collected)
    by (unfold polar_angles; now rewrite length_map).
  split; [exact EV|]. split; [|split].
  - rewrite <- LA. apply argsort_perm.
  - destruct vs; [discriminate | now injection E as <-].
  - apply argsort_sorted.
Qed.

(** ** The dictionary of ridges *)

Lemma dict_getitem_setdefault (d : ridge_dict) (k : Z) (x : Z * Z * Z) (p : Z) :
  dict_getitem (setdefault_append d k x) p
  = if (p =? k)%Z then Ok (entries_of d k ++ [x]) else dict_getitem d p.
Proof.
  unfold entries_of.
  induction d as [|[k' l] rest IH]; simpl.
  - destruct (p =? k)%Z; reflexivity.
  - destruct (k =? k')%Z eqn:E; simpl.
    + apply Z.eqb_eq in E. subst k'.
      destruct (p =? k)%Z; reflexivity.
    + destruct (p =? k')%Z eqn:E'.
      * apply Z.eqb_eq in E'. subst k'.
        rewrite Z.eqb_sym in E. now rewrite E.
      * exact IH.
Qed.

Lemma entries_of_setdefault (d : ridge_dict) (k : Z) (x : Z * Z * Z) (p : Z) :
  entries_of (setdefault_append d k x) p
  = entries_of d p ++ (if (p =? k)%Z then [x] else []).
Proof.
  unfold entries_of at 1. rewrite dict_getitem_setdefault.
  destruct (p =? k)%Z eqn:E.
  - apply Z.eqb_eq in E. now subst.
  - fold (entries_of d p). now rewrite app_nil_r.
Qed.

Lemma entries_of_build (vor : Voronoi) (p : Z) :
  entries_of (build_all_ridges vor) p = ridges_of vor p.
Proof.
  unfold build_all_ridges, ridges_of.
  set (items := combine (ridge_points vor) (ridge_vertices vor)).
  change (flat_map _ items) with (entries_of [] p ++ flat_map
    (fun '((a, b), (v1, v2)) =>
       (if (p =? a)%Z then [(b, v1, v2)] else [])
       ++ (if (p =? b)%Z then [(a, v1, v2)] else [])) items).
  generalize (@nil (Z * list (Z * Z * Z))) as d. clearbody items.
  induction items as [|[[a b] [v1 v2]] rest IH]; intros d.
  - simpl. now rewrite app_nil_r.
  - cbn [fold_left flat_map]. rewrite IH, !entries_of_setdefault.
    now rewrite <- !app_assoc.
Qed.

Lemma all_ridges_getitem (vor : Voronoi) (p : Z) (ridges : list (Z * Z * Z)) :
  dict_getitem (build_all_ridges vor) p = Ok ridges ->
  ridges = ridges_of vor p.
Proof.
  intros E. rewrite <- entries_of_build. unfold entries_of. now rewrite E.
Qed.

(** ** The loop over the regions *)

Lemma getitem_nonneg {A : Type} (l : list A) (i : Z) (a : A) :
  (0 <= i)%Z -> getitem l i = Ok a <-> nth_error l (Z.to_nat i) = Some a.
Proof.
  intros P. unfold getitem.
  assert (E : (i <? 0)%Z = false) by lia. rewrite E.
  destruct ((i <? 0) || (Z.of_nat (length l) <=? i))%Z eqn:B.
  - split; [discriminate|]. intros N.
    assert (Z.to_nat i < length l)%nat by (apply nth_error_Some; congruence).
    lia.
  - destruct (nth_error l (Z.to_nat i)); split; congruence.
Qed.

Lemma getitem_app {A : Type} (l more : list A) (i : Z) (a : A) :
  (0 <= i)%Z -> getitem l i = Ok a -> getitem (l ++ more) i = Ok a.
Proof.
  intros P E. apply getitem_nonneg in E; [|assumption].
  apply getitem_nonneg; [assumption|].
  rewrite nth_error_app1; [assumption|].
  apply nth_error_Some. congruence.
Qed.

Lemma for_each_getitem_app {A : Type} (l more : list A) (idx : list Z)
  (out : list A) :
  Forall (fun i => (0 <= i)%Z) idx ->
  for_each (getitem l) idx = Ok out ->
  for_each (getitem (l ++ more)) idx = Ok out.
Proof.
  revert out. induction idx as [|i idx IH]; intros out F; simpl.
  - trivial.
  - inversion F as [|? ? Pi F']. subst.
    destruct (getitem l i) as [a|e] eqn:E; [|discriminate]. simpl.
    rewrite (getitem_app l more i a Pi E). simpl.
    destruct (for_each (getitem l) idx) as [ys|e]; [|discriminate].
    rewrite (IH ys F' eq_refl). trivial.
Qed.

Lemma collected_nonneg (region_vertices : list Z) (base len : nat) :
  Forall (fun i => (0 <= i)%Z)
         (filter (fun v => (0 <=? v)%Z) region_vertices
          ++ map Z.of_nat (seq base len)).
Proof.
  apply Forall_app. split.
  - apply Forall_forall. intros v Hv. apply filter_In in Hv. lia.
  - apply Forall_map, Forall_forall. intros v _. lia.
Qed.

(** Vertices appended later do not disturb a reconstructed region. *)
Lemma region_reconstructed_app (vor : Voronoi) (center : point) (radius : R)
  (p1 region : Z) (out_region : list Z) (out_vertices more : list point) :
  region_reconstructed vor center radius p1 region out_region out_vertices ->
  region_reconstructed vor center radius p1 region out_region
                       (out_vertices ++ more).
Proof.
  intros (rv & E & [C|(NF & base & fars & S & N & vs & order & EV & P & O & St)]).
  - exists rv. split; [exact E | now left].
  - exists rv. split; [exact E|]. right. split; [exact NF|].
    exists base, fars. split; [exact S|]. split.
    + intros k Hk. rewrite nth_error_app1; [now apply N|].
      apply nth_error_Some. rewrite N by assumption.
      apply nth_error_Some. assumption.
    + exists vs, order. repeat split; try assumption.
      apply for_each_getitem_app; [apply collected_nonneg | exact EV].
Qed.

Lemma reconstruct_region_spec (vor : Voronoi) (center : point) (radius : R)
  (p1 region : Z) (new_regions : list (list Z)) (new_vertices : list point)
  (out_regions : list (list Z)) (out_vertices : list point) :
  reconstruct_region vor center radius (build_all_ridges vor) p1 region
                     new_regions new_vertices = Ok (out_regions, out_vertices) ->
  exists out_region added,
    out_regions = new_regions ++ [out_region] /\
    out_vertices = new_vertices ++ added /\
    region_reconstructed vor center radius p1 region out_region out_vertices.
Proof.
  unfold reconstruct_region. intros E.
  apply bind_ok in E. destruct E as (rv & ER & E).
  destruct (forallb _ rv) eqn:FB.
  - injection E as <- <-. exists rv, []. rewrite app_nil_r.
    repeat split. exists rv. split; [exact ER | now left].
  - apply bind_ok in E. destruct E as (ridges & ED & E).
    apply all_ridges_getitem in ED. subst ridges.
    rewrite ridge_loop_spec in E.
    apply bind_ok in E. destruct E as ([nr nv] & EL & E).
    apply bind_ok in EL. destruct EL as (fars & EF & EL).
    injection EL as <- <-.
    apply bind_ok in E. destruct E as (sorted & ES & E).
    injection E as <- <-.
    exists sorted, fars. repeat split.
    exists rv. split; [exact ER|]. right. split; [exact FB|].
    exists (length new_vertices), fars. split; [|split].
    + apply for_each_Forall2 in EF.
      eapply Forall2_impl; [|exact EF].
      intros ridge far. apply far_point_synthesized.
    + intros k Hk. rewrite nth_error_app2 by lia. f_equal. lia.
    + now apply sort_region_spec.
Qed.

Lemma region_loop_spec (vor : Voronoi) (center : point) (radius : R)
  (point_regions : list Z) :
  forall (p1 : nat) (new_regions : list (list Z)) (new_vertices : list point)
         (out_regions : list (list Z)) (out_vertices : list point),
  region_loop vor center radius (build_all_ridges vor) p1 point_regions
              new_regions new_vertices = Ok (out_regions, out_vertices) ->
  exists regs added,
    out_regions = new_regions ++ regs /\
    out_vertices = new_vertices ++ added /\
    length regs = length point_regions /\
    forall k region,
      nth_error point_regions k = Some region ->
      exists out_region,
        nth_error regs k = Some out_region /\
        region_reconstructed vor center radius (Z.of_nat (p1 + k)) region
                             out_region out_vertices.
Proof.
  induction point_regions as [|region rest IH];
    intros p1 new_regions new_vertices out_regions out_vertices E.
  - injection E as <- <-. exists [], []. rewrite !app_nil_r.
    repeat split. intros [|k] region; discriminate.
  - cbn [region_loop] in E.
    apply bind_ok in E. destruct E as ([nr nv] & E1 & E).
    apply reconstruct_region_spec in E1.
    destruct E1 as (out_region & added1 & -> & -> & R1).
    apply IH in E. destruct E as (regs & added & -> & -> & L & Each).
    exists (out_region :: regs), (added1 ++ added).
    rewrite <- !app_assoc. repeat split.
    + simpl. now rewrite L.
    + intros [|k] region' N.
      * injection N as <-. exists out_region. split; [reflexivity|].
        rewrite Nat.add_0_r, app_assoc. now apply region_reconstructed_app.
      * destruct (Each k region' N) as (o & No & Ro).
        exists o. split; [exact No|].
        replace (p1 + S k)%nat with (S p1 + k)%nat by lia.
        now rewrite app_assoc.
Qed.


(** ** The worked example *)

Lemma example_init :
  __init__ [[2000000; 2000000]; [6000000; 2000000]; [2000000; 5000000]]
  = Ok three_sensors.
Proof. reflexivity. Qed.

Lemma example_mask : _boundary_to_mask square_boundary = Ok square_mask.
Proof. reflexivity. Qed.

Lemma example_center :
  mean_axis0 (points three_sensor_voronoi) = (10000000 / 3, 3000000).
Proof. unfold mean_axis0, np_sum. simpl. f_equal; field. Qed.

Lemma norm_eval (a : point) (L : R) :
  0 <= L -> fst a * fst a + snd a * snd a = L * L -> norm a = L.
Proof. intros P E. unfold norm. rewrite E. now apply sqrt_square. Qed.

Lemma sign_pos (x : R) : 0 < x -> sign x = 1.
Proof.
  intros P. unfold sign.
  destruct (Rlt_dec 0 x); [reflexivity | contradiction].
Qed.

Lemma sign_neg (x : R) : x < 0 -> sign x = -1.
Proof.
  intros P. unfold sign. destruct (Rlt_dec 0 x); [lra|].
  destruct (Rlt_dec x 0); [reflexivity | contradiction].
Qed.

(** The far point of the ridge between the sensors [P1] and [P2], at
    distance [L] from each other; [sgn] is [sign_pos] or [sign_neg]. *)
Ltac far_eval P1 P2 L sgn :=
  rewrite (far_point_formula _ _ _ _ _ _ P1 P2 circumcentre) by reflexivity;
  unfold spec_far_point, circumcentre, far_01, far_02, far_12;
  rewrite (norm_eval _ L) by (unfold psub; simpl; lra);
  unfold psub, padd, pdiv, pscale, dot; simpl;
  rewrite sgn by lra;
  do 2 f_equal; lra.

Lemma example_far_0_1 :
  far_point three_sensor_voronoi (10000000 / 3, 3000000) 1000000 0 1 0
  = Ok far_01.
Proof. far_eval (2000000, 2000000) (6000000, 2000000) 4000000 sign_neg. Qed.

Lemma example_far_1_0 :
  far_point three_sensor_voronoi (10000000 / 3, 3000000) 1000000 1 0 0
  = Ok far_01.
Proof. far_eval (6000000, 2000000) (2000000, 2000000) 4000000 sign_pos. Qed.

Lemma example_far_0_2 :
  far_point three_sensor_voronoi (10000000 / 3, 3000000) 1000000 0 2 0
  = Ok far_02.
Proof. far_eval (2000000, 2000000) (2000000, 5000000) 3000000 sign_pos. Qed.

Lemma example_far_2_0 :
  far_point three_sensor_voronoi (10000000 / 3, 3000000) 1000000 2 0 0
  = Ok far_02.
Proof. far_eval (2000000, 5000000) (2000000, 2000000) 3000000 sign_neg. Qed.

Lemma example_far_1_2 :
  far_point three_sensor_voronoi (10000000 / 3, 3000000) 1000000 1 2 0
  = Ok far_12.
Proof. far_eval (6000000, 2000000) (2000000, 5000000) 5000000 sign_neg. Qed.

Lemma example_far_2_1 :
  far_point three_sensor_voronoi (10000000 / 3, 3000000) 1000000 2 1 0
  = Ok far_12.
Proof. far_eval (2000000, 5000000) (6000000, 2000000) 5000000 sign_pos. Qed.

Lemma sort_region_eq (collected : list Z) (all_vertices vs : list point) :
  for_each (getitem all_vertices) collected = Ok vs -> vs <> [] ->
  sort_region collected all_vertices
  = Ok (map (fun i => nth i collected 0%Z) (argsort (polar_angles vs))).
Proof.
  intros E N. unfold sort_region. rewrite E. simpl.
  destruct vs; [contradiction | reflexivity].
Qed.

Lemma reconstruct_region_infinite (vor : Voronoi) (center : point) (radius : R)
  (all_ridges : ridge_dict) (p1 region : Z) (new_regions : list (list Z))
  (new_vertices : list point) (rv : list Z) (ridges : list (Z * Z * Z))
  (fars vs : list point) :
  getitem (regions vor) region = Ok rv ->
  forallb (fun v => (0 <=? v)%Z) rv = false ->
  dict_getitem all_ridges p1 = Ok ridges ->
  for_each (fun ridge => far_point vor center radius p1
                           (neighbor ridge) (finite_vertex ridge))
           (filter ridge_is_infinite ridges) = Ok fars ->
  for_each (getitem (new_vertices ++ fars))
           (filter (fun v => (0 <=? v)%Z) rv
            ++ map Z.of_nat (seq (length new_vertices) (length fars))) = Ok vs ->
  vs <> [] ->
  reconstruct_region vor center radius all_ridges p1 region
                     new_regions new_vertices
  = Ok (new_regions
        ++ [map (fun i => nth i (filter (fun v => (0 <=? v)%Z) rv
                   ++ map Z.of_nat (seq (length new_vertices) (length fars))) 0%Z)
                (argsort (polar_angles vs))],
        new_vertices ++ fars).
Proof.
  intros ER NF ED EF EV NV. unfold reconstruct_region.
  rewrite ER. cbn [bind]. rewrite NF, ED. cbn [bind].
  rewrite ridge_loop_spec, EF. cbn [bind].
  rewrite (sort_region_eq _ _ vs EV NV). reflexivity.
Qed.

Ltac far_rows :=
  cbn [filter ridge_is_infinite for_each neighbor finite_vertex
       Z.ltb Z.compare orb];
  rewrite ?example_far_0_1, ?example_far_0_2, ?example_far_1_0,
          ?example_far_1_2, ?example_far_2_0, ?example_far_2_1;
  reflexivity.

Ltac reconstruct_triangle ridges far_a far_b :=
  rewrite (reconstruct_region_infinite _ _ _ _ _ _ _ _ [-1; 0]%Z ridges
             [far_a; far_b] [circumcentre; far_a; far_b]);
  [ | reflexivity | reflexivity | reflexivity
    | far_rows | reflexivity | discriminate ];
  cbn [bind].

(** The reconstructor on the three sensors. *)
Lemma example_finite_polygons :
  _voronoi_finite_polygons_2d three_sensor_voronoi (Some 1000000)
  = Ok (example_regions, example_vertices).
Proof.
  unfold _voronoi_finite_polygons_2d. rewrite example_center. cbn [bind].
  cbn [region_loop point_region three_sensor_voronoi].
  change (Z.of_nat 0) with 0%Z. change (Z.of_nat 1) with 1%Z.
  change (Z.of_nat 2) with 2%Z.
  reconstruct_triangle [(1, -1, 0); (2, -1, 0)]%Z far_01 far_02.
  reconstruct_triangle [(0, -1, 0); (2, -1, 0)]%Z far_01 far_12.
  reconstruct_triangle [(0, -1, 0); (1, -1, 0)]%Z far_02 far_12.
  reflexivity.
Qed.

Lemma order_of_three (o : list nat) :
  Permutation o [0; 1; 2]%nat ->
  o = [0; 1; 2]%nat \/ o = [0; 2; 1]%nat \/ o = [1; 0; 2]%nat \/
  o = [1; 2; 0]%nat \/ o = [2; 0; 1]%nat \/ o = [2; 1; 0]%nat.
Proof.
  intros P.
  assert (L := Permutation_length P).
  assert (ND : NoDup o).
  { apply (Permutation_NoDup (Permutation_sym P)).
    repeat constructor; simpl; intuition lia. }
  assert (I : forall x, In x o -> x = 0%nat \/ x = 1%nat \/ x = 2%nat).
  { intros x Hx. apply (Permutation_in _ P) in Hx. simpl in Hx. intuition. }
  destruct o as [|i [|j [|k [|? ?]]]]; try discriminate.
  assert (Hi := I i (or_introl eq_refl)).
  assert (Hj := I j (or_intror (or_introl eq_refl))).
  assert (Hk := I k (or_intror (or_intror (or_introl eq_refl)))).
  inversion ND as [|? ? Ni ND']. inversion ND' as [|? ? Nj ND'']. subst.
  simpl in Ni, Nj.
  destruct Hi as [-> | [-> | ->]], Hj as [-> | [-> | ->]], Hk as [-> | [-> | ->]];
    try (exfalso; tauto); tauto.
Qed.

Ltac decide_left_of :=
  unfold inside_convex, left_of, square_mask, circumcentre,
         far_01, far_02, far_12;
  cbn [app firstn edges forallb fst snd andb];
  repeat match goal with
         | |- context [Rlt_dec ?a ?b] =>
             destruct (Rlt_dec a b); [|exfalso; lra]
         end;
  reflexivity.

Lemma inside_sensor0 : inside_convex square_mask (2000000, 2000000) = true.
Proof. decide_left_of. Qed.

Lemma inside_sensor1 : inside_convex square_mask (6000000, 2000000) = true.
Proof. decide_left_of. Qed.

Lemma inside_sensor2 : inside_convex square_mask (2000000, 5000000) = true.
Proof. decide_left_of. Qed.

Lemma inside_circumcentre : inside_convex square_mask circumcentre = true.
Proof. decide_left_of. Qed.

Lemma inside_far_01 : inside_convex square_mask far_01 = true.
Proof. decide_left_of. Qed.

Lemma inside_far_02 : inside_convex square_mask far_02 = true.
Proof. decide_left_of. Qed.

Lemma inside_far_12 : inside_convex square_mask far_12 = true.
Proof. decide_left_of. Qed.

(** A triangle inside the mask is clipped to itself, in whatever order its
    vertices are listed. *)
Lemma triangle_clip (a b c : point) (ia ib ic : Z) (verts : list point)
  (o : list nat) :
  Permutation o [0; 1; 2]%nat ->
  getitem verts ia = Ok a -> getitem verts ib = Ok b -> getitem verts ic = Ok c ->
  inside_convex square_mask a = true -> inside_convex square_mask b = true ->
  inside_convex square_mask c = true ->
  clip_region square_mask verts (map (fun i => nth i [ia; ib; ic] 0%Z) o)
  = Ok (map (fun i => nth i [a; b; c] (0, 0)) o).
Proof.
  intros P Ea Eb Ec Ia Ib Ic.
  destruct (order_of_three o P) as [-> | [-> | [-> | [-> | [-> | ->]]]]];
    unfold clip_region; cbn [map nth for_each];
    rewrite Ea, Eb, Ec; cbn [bind];
    unfold close_ring, intersection_boundary; cbn [example_collaborators];
    unfold example_intersection;
    cbn [getitem length Z.of_nat Z.ltb Z.leb Z.compare orb nth_error Z.to_nat
         bind app forallb];
    rewrite Ia, Ib, Ic; reflexivity.
Qed.

(** The area of a triangle does not depend on the order of its vertices. *)
Lemma triangle_area (a b c : point) (o : list nat) :
  Permutation o [0; 1; 2]%nat ->
  region_area (map (fun i => nth i [a; b; c] (0, 0)) o)
  = Ok (ring_area [a; b; c; a]).
Proof.
  intros P.
  destruct (order_of_three o P) as [-> | [-> | [-> | [-> | [-> | ->]]]]];
    unfold region_area, close_ring, polygon_area; cbn [example_collaborators];
    unfold example_polygon_area;
    cbn [map nth getitem length Z.of_nat Z.ltb Z.leb Z.compare orb nth_error
         Z.to_nat bind app Nat.ltb Nat.leb collaborate];
    f_equal; unfold ring_area; f_equal; cbn [shoelace];
    (f_equal; ring) || (rewrite <- Rabs_Ropp; f_equal; ring).
Qed.

Ltac triangle_area_eval :=
  unfold ring_area, square_mask, circumcentre, far_01, far_02, far_12, Rabs;
  cbn [app firstn shoelace fst snd];
  destruct (Rcase_abs _); lra.

Lemma example_area_0 :
  ring_area [circumcentre; far_01; far_02; circumcentre] = 500000000000.
Proof. triangle_area_eval. Qed.

Lemma example_area_1 :
  ring_area [circumcentre; far_01; far_12; circumcentre] = 300000000000.
Proof. triangle_area_eval. Qed.

Lemma example_area_2 :
  ring_area [circumcentre; far_02; far_12; circumcentre] = 400000000000.
Proof. triangle_area_eval. Qed.

Lemma example_mask_area :
  ring_area (square_mask ++ firstn 1 square_mask) = 64000000000000.
Proof. triangle_area_eval. Qed.

Lemma example_cull :
  _cull_points three_sensors square_mask
  = (coordinates three_sensors, [0; 1; 2]%nat, []).
Proof.
  unfold _cull_points. cbn [cull_loop coordinates three_sensors].
  change (@contains _ example_collaborators) with inside_convex.
  now rewrite inside_sensor0, inside_sensor1, inside_sensor2.
Qed.

Lemma example_tessellation :
  tessellate (coordinates three_sensors) = Some three_sensor_voronoi.
Proof.
  cbn [tessellate example_collaborators]. unfold example_tessellate.
  destruct (list_eq_dec _ _ _); [reflexivity | contradiction].
Qed.

(** The whole pipeline on the three sensors. *)
Lemma example_weights :
  _voronoi_weights (Mask := list point) three_sensors square_boundary
  = Ok (example_weight_vector, [0; 1; 2]%nat).
Proof.
  unfold _voronoi_weights. rewrite example_mask. cbn [bind].
  unfold _bounded_voronoi. rewrite example_cull, example_tessellation.
  cbn [collaborate bind]. rewrite example_finite_polygons.
  unfold example_regions, example_vertices. cbn [bind for_each].
  rewrite (triangle_clip circumcentre far_01 far_02),
          (triangle_clip circumcentre far_01 far_12),
          (triangle_clip circumcentre far_02 far_12);
    try reflexivity;
    try apply inside_circumcentre; try apply inside_far_01;
    try apply inside_far_02; try apply inside_far_12;
    try apply argsort_perm.
  cbn [bind for_each].
  rewrite !triangle_area by apply argsort_perm.
  cbn [bind map].
  change (mask_area square_mask)
    with (ring_area (square_mask ++ firstn 1 square_mask)).
  now rewrite example_area_0, example_area_1, example_area_2,
              example_mask_area.
Qed.


(** ** What the geometry can raise *)

Lemma never_unsupported_bind {A B : Type} (r : result A) (k : A -> result B) :
  never_unsupported r -> (forall a, never_unsupported (k a)) ->
  never_unsupported (bind r k).
Proof. destruct r as [a|e]; simpl; auto. Qed.

Lemma never_unsupported_getitem {A : Type} (l : list A) (i : Z) :
  never_unsupported (getitem l i).
Proof.
  unfold getitem. destruct (_ || _); simpl; [exact I|].
  destruct (nth_error _ _); exact I.
Qed.

Lemma never_unsupported_for_each {A B : Type} (f : A -> result B) (l : list A) :
  (forall x, never_unsupported (f x)) -> never_unsupported (for_each f l).
Proof.
  intros F. induction l as [|x l IH]; simpl; [exact I|].
  apply never_unsupported_bind; [apply F|]. intros y.
  apply never_unsupported_bind; [exact IH|]. intros ys. exact I.
Qed.

Lemma never_unsupported_collaborate {A : Type} (what : string) (o : option A) :
  never_unsupported (collaborate what o).
Proof. destruct o; exact I. Qed.

Lemma never_unsupported_as_points (one_dim : exn) (msg : string)
  (rows : list (list R)) :
  supported_failure one_dim -> never_unsupported (as_points one_dim msg rows).
Proof.
  intros S. unfold as_points. destruct rows as [|first rest]; [exact S|].
  destruct (negb _); [exact I|]. destruct (negb _); exact I.
Qed.

Lemma never_unsupported_dict (d : ridge_dict) (k : Z) :
  never_unsupported (dict_getitem d k).
Proof.
  induction d as [|[k' l] rest IH]; simpl; [exact I|].
  destruct (k =? k')%Z; [exact I | exact IH].
Qed.

Lemma never_unsupported_far_point (vor : Voronoi) (center : point) (radius : R)
  (p1 p2 v2 : Z) :
  never_unsupported (far_point vor center radius p1 p2 v2).
Proof.
  unfold far_point.
  repeat (apply never_unsupported_bind;
          [apply never_unsupported_getitem | intros ?]).
  exact I.
Qed.

Lemma never_unsupported_sort_region (new_region : list Z)
  (new_vertices : list point) :
  never_unsupported (sort_region new_region new_vertices).
Proof.
  unfold sort_region. apply never_unsupported_bind.
  - apply never_unsupported_for_each. intros i. apply never_unsupported_getitem.
  - intros [|v vs]; exact I.
Qed.

Lemma never_unsupported_reconstruct (vor : Voronoi) (center : point)
  (radius : R) (all_ridges : ridge_dict) (p1 region : Z)
  (new_regions : list (list Z)) (new_vertices : list point) :
  never_unsupported (reconstruct_region vor center radius all_ridges p1 region
                                        new_regions new_vertices).
Proof.
  unfold reconstruct_region.
  apply never_unsupported_bind; [apply never_unsupported_getitem|].
  intros rv. destruct (forallb _ rv); [exact I|].
  apply never_unsupported_bind; [apply never_unsupported_dict|].
  intros ridges. rewrite ridge_loop_spec.
  apply never_unsupported_bind.
  - apply never_unsupported_bind; [|intros; exact I].
    apply never_unsupported_for_each. intros ridge.
    apply never_unsupported_far_point.
  - intros [nr nv].
    apply never_unsupported_bind; [apply never_unsupported_sort_region|].
    intros; exact I.
Qed.

Lemma never_unsupported_region_loop (vor : Voronoi) (center : point)
  (radius : R) (all_ridges : ridge_dict) (point_regions : list Z) :
  forall p1 new_regions new_vertices,
    never_unsupported (region_loop vor center radius all_ridges p1
                                   point_regions new_regions new_vertices).
Proof.
  induction point_regions as [|region rest IH]; intros; simpl; [exact I|].
  apply never_unsupported_bind; [apply never_unsupported_reconstruct|].
  intros [nr nv]. apply IH.
Qed.

Lemma never_unsupported_finite_polygons (vor : Voronoi) (radius : option R) :
  never_unsupported (_voronoi_finite_polygons_2d vor radius).
Proof.
  unfold _voronoi_finite_polygons_2d. apply never_unsupported_bind.
  - destruct radius; [exact I|]. unfold ptp_max.
    destruct (flat_map _ _); exact I.
  - intros r. apply never_unsupported_region_loop.
Qed.

Section GeometryFailures.

Context {Mask : Type} `{Collaborators Mask}.

Lemma never_unsupported_close_ring (a : list point) :
  never_unsupported (close_ring a).
Proof.
  unfold close_ring.
  apply never_unsupported_bind; [apply never_unsupported_getitem|].
  intros; exact I.
Qed.

Lemma never_unsupported_bounded_voronoi (self : HvsrSpatial) (mask : Mask)
  (radius : R) :
  never_unsupported (_bounded_voronoi self mask radius).
Proof.
  unfold _bounded_voronoi. destruct (_cull_points self mask) as [[pts idx] log].
  apply never_unsupported_bind; [apply never_unsupported_collaborate|].
  intros vor.
  apply never_unsupported_bind; [apply never_unsupported_finite_polygons|].
  intros [regions verts].
  apply never_unsupported_bind; [|intros; exact I].
  apply never_unsupported_for_each. intros region. unfold clip_region.
  apply never_unsupported_bind.
  { apply never_unsupported_for_each. intros i. apply never_unsupported_getitem. }
  intros pts'.
  apply never_unsupported_bind; [apply never_unsupported_close_ring|].
  intros closed.
  apply never_unsupported_bind; [apply never_unsupported_collaborate|].
  intros; exact I.
Qed.

Lemma never_unsupported_voronoi_weights (self : HvsrSpatial)
  (boundary : list (list R)) :
  never_unsupported (_voronoi_weights self boundary).
Proof.
  unfold _voronoi_weights, _boundary_to_mask.
  apply never_unsupported_bind.
  { apply never_unsupported_bind; [|intros; exact I].
    apply never_unsupported_as_points. exact I. }
  intros mask.
  apply never_unsupported_bind; [apply never_unsupported_bounded_voronoi|].
  intros [regions indices].
  apply never_unsupported_bind; [|intros; exact I].
  apply never_unsupported_for_each. intros region. unfold region_area.
  apply never_unsupported_bind; [apply never_unsupported_close_ring|].
  intros closed. apply never_unsupported_collaborate.
Qed.

Lemma spatial_weights_unsupported_iff (self : HvsrSpatial)
  (boundary : list (list R)) (declustering_method : string) :
  (exists msg,
      spatial_weights self boundary declustering_method
      = Raise (NotImplementedError msg))
  <-> declustering_method <> "voronoi"%string.
Proof.
  unfold spatial_weights.
  destruct (declustering_method =? "voronoi")%string eqn:E.
  - apply String.eqb_eq in E. split; [|congruence].
    intros (msg & R).
    assert (N := never_unsupported_voronoi_weights self boundary).
    destruct (_voronoi_weights self boundary) as [[w i]|e]; simpl in *.
    + discriminate.
    + injection R as ->. contradiction.
  - apply String.eqb_neq in E. split; [trivial|]. intros _. now exists ""%string.
Qed.

End GeometryFailures.

(** C4: [montecarlo_fn] raises [NotImplementedError] exactly when one of
    the two distribution kinds is neither "normal" nor "lognormal", and
    [spatial_weights] exactly when the declustering method is not "voronoi";
    the call then yields the error and no value. *)
Theorem unsupported_configuration_iff
  {G : Type} `{Generator G} {Mask : Type} `{Collaborators Mask}
  (fresh : G) (memory : nat -> nat -> R)
  (generator_means generator_stddevs generator_weights : list R)
  (dg ds : string) (n_realizations : nat) (rng : option G)
  (self : HvsrSpatial) (boundary : list (list R))
  (declustering_method : string) :
  ((exists msg g',
       montecarlo_fn fresh memory generator_means generator_stddevs
                     generator_weights dg ds n_realizations rng
       = (Raise (NotImplementedError msg), g'))
   <-> ~ (dg = "normal"%string \/ dg = "lognormal"%string)
       \/ ~ (ds = "normal"%string \/ ds = "lognormal"%string))
  /\
  ((exists msg,
       spatial_weights self boundary declustering_method
       = Raise (NotImplementedError msg))
   <-> declustering_method <> "voronoi"%string)
  /\
  (recognized dg = false \/ recognized ds = false ->
   exists msg,
     montecarlo_fn fresh memory generator_means generator_stddevs
                   generator_weights dg ds n_realizations rng
     = (Raise (NotImplementedError msg), generator_used fresh rng))
  /\
  (declustering_method <> "voronoi"%string ->
   spatial_weights self boundary declustering_method
   = Raise (NotImplementedError "")).
Proof.
  split; [apply montecarlo_unsupported_iff|].
  split; [apply spatial_weights_unsupported_iff|].
  split.
  - intros U. destruct (recognized dg) eqn:E1.
    + destruct U as [U|U]; [discriminate|]. eexists.
      now apply montecarlo_rejects_spatial.
    + eexists. now apply montecarlo_rejects_generators.
  - intros N. unfold spatial_weights.
    apply String.eqb_neq in N. now rewrite N.
Qed.

Lemma unsupported_configuration_iff_witness :
  (exists msg g',
      montecarlo_fn 0%nat (fun _ _ => 0) [1] [1] [1] "normal" "gamma" 2
                    (Some 3%nat)
      = (Raise (NotImplementedError msg), g'))
  /\
  (exists msg,
      spatial_weights three_sensors square_boundary "polygonal"
      = Raise (NotImplementedError msg)).
Proof.
  destruct (unsupported_configuration_iff
              0%nat (fun _ _ => 0) [1] [1] [1] "normal" "gamma" 2 (Some 3%nat)
              three_sensors square_boundary "polygonal")
    as (M & S & _).
  split.
  - apply M. right. intros [E|E]; discriminate.
  - apply S. discriminate.
Defined.

(** ** Weights *)

Section VoronoiWeights.

Context {Mask : Type} `{Collaborators Mask}.


(** What [_voronoi_weights] returns: the areas of the clipped regions, each
    divided by the area of the mask. *)
Lemma voronoi_weights_spec (self : HvsrSpatial) (boundary : list (list R))
  (weights : list R) (indices : list nat) :
  _voronoi_weights self boundary = Ok (weights, indices) ->
  exists mask regions areas,
    _boundary_to_mask boundary = Ok mask /\
    _bounded_voronoi self mask 1000000 = Ok (regions, indices) /\
    Forall2 (fun region a => region_area region = Ok a) regions areas /\
    weights = map (fun a => a / mask_area mask) areas.
Proof.
  unfold _voronoi_weights. intros E.
  apply bind_ok in E. destruct E as (mask & EM & E).
  apply bind_ok in E. destruct E as ([regions idx] & EB & E).
  apply bind_ok in E. destruct E as (areas & EA & E).
  injection E as <- <-.
  exists mask, regions, areas. repeat split; try assumption.
  now apply for_each_Forall2.
Qed.

Lemma bounded_voronoi_indices (self : HvsrSpatial) (mask : Mask) (radius : R)
  (regions : list (list point)) (indices : list nat) :
  _bounded_voronoi self mask radius = Ok (regions, indices) ->
  indices = snd (fst (_cull_points self mask)).
Proof.
  unfold _bounded_voronoi.
  destruct (_cull_points self mask) as [[pts idx] log]. intros E.
  apply bind_ok in E. destruct E as (vor & _ & E).
  apply bind_ok in E. destruct E as ([rs vs] & _ & E).
  apply bind_ok in E. destruct E as (nv & _ & E).
  now injection E as _ <-.
Qed.

End VoronoiWeights.




(** ** The point culler *)

(** C7: [_cull_points] returns the coordinates the mask contains, in their
    order, with their positions in [self.coordinates] in increasing order;
    a coordinate the mask does not contain is neither among the points nor
    is its position among the indices, and the indices returned with the
    weights are those of the culler. *)
Theorem cull_points_subsequence {Mask : Type} `{Collaborators Mask}
  (self : HvsrSpatial) (mask : Mask)
  (passing_points : list point) (passing_indices : list nat)
  (discarded : list point) :
  _cull_points self mask = (passing_points, passing_indices, discarded) ->
  passing_points = filter (contains mask) (coordinates self) /\
  passing_points
  = map (fun i => nth i (coordinates self) (0, 0)) passing_indices /\
  StronglySorted lt passing_indices /\
  (forall i, In i passing_indices
             <-> (i < length (coordinates self))%nat
                 /\ contains mask (nth i (coordinates self) (0, 0)) = true) /\
  (forall p, contains mask p = false -> ~ In p passing_points) /\
  discarded = filter (fun p => negb (contains mask p)) (coordinates self) /\
  (forall boundary weights indices,
      _boundary_to_mask boundary = Ok mask ->
      _voronoi_weights self boundary = Ok (weights, indices) ->
      indices = passing_indices /\
      forall i, In i indices ->
                contains mask (nth i (coordinates self) (0, 0)) = true).
Proof.
  rewrite cull_points_spec. intros [= <- <- <-].
  assert (Mem : forall i,
             In i (filter (fun i => contains mask (nth i (coordinates self) (0, 0)))
                          (seq 0 (length (coordinates self))))
             <-> (i < length (coordinates self))%nat
                 /\ contains mask (nth i (coordinates self) (0, 0)) = true).
  { intros i. rewrite filter_In, in_seq. intuition lia. }
  split; [reflexivity|]. split; [|split; [|split; [|split; [|split]]]].
  - transitivity
      (map (fun i => nth (i - 0) (coordinates self) (0, 0))
           (filter (fun i => contains mask (nth (i - 0) (coordinates self) (0, 0)))
                   (seq 0 (length (coordinates self))))).
    + symmetry. apply (filter_by_position (contains mask) (coordinates self) 0).
    + rewrite (filter_ext
                 (fun i => contains mask (nth (i - 0) (coordinates self) (0, 0)))
                 (fun i => contains mask (nth i (coordinates self) (0, 0))))
        by (intros; now rewrite Nat.sub_0_r).
      apply map_ext. intros. now rewrite Nat.sub_0_r.
  - apply filter_seq_increasing.
  - exact Mem.
  - intros p Out In_p. apply filter_In in In_p. destruct In_p as [_ In_p].
    congruence.
  - reflexivity.
  - intros boundary weights indices EM EW.
    apply voronoi_weights_spec in EW.
    destruct EW as (mask' & regions & areas & EM' & EB & _).
    rewrite EM in EM'. injection EM' as <-.
    apply bounded_voronoi_indices in EB. rewrite cull_points_spec in EB.
    simpl in EB. subst indices. split; [reflexivity|].
    intros i Hi. now apply Mem.
Qed.

Lemma cull_points_subsequence_witness :
  coordinates three_sensors
  = filter (contains square_mask) (coordinates three_sensors) /\
  coordinates three_sensors
  = map (fun i => nth i (coordinates three_sensors) (0, 0)) [0; 1; 2]%nat /\
  StronglySorted lt [0; 1; 2]%nat /\
  (forall i, In i [0; 1; 2]%nat
             <-> (i < length (coordinates three_sensors))%nat
                 /\ contains square_mask
                      (nth i (coordinates three_sensors) (0, 0)) = true) /\
  (forall p, contains square_mask p = false ->
             ~ In p (coordinates three_sensors)) /\
  [] = filter (fun p => negb (contains square_mask p))
              (coordinates three_sensors) /\
  (forall boundary weights indices,
      _boundary_to_mask boundary = Ok square_mask ->
      _voronoi_weights three_sensors boundary = Ok (weights, indices) ->
      indices = [0; 1; 2]%nat /\
      forall i, In i indices ->
                contains square_mask
                  (nth i (coordinates three_sensors) (0, 0)) = true).
Proof.
  apply (cull_points_subsequence three_sensors square_mask
           (coordinates three_sensors) [0; 1; 2]%nat []).
  exact example_cull.
Defined.


(** * Further properties *)

(** ** Edge behaviour of the statistics engine *)

Lemma loop_last_none {A : Type} (l : list A) : loop_last l = None <-> l = [].
Proof.
  split; [|now intros ->].
  destruct l as [|x l] using rev_ind; [reflexivity|].
  rewrite loop_last_snoc. discriminate.
Qed.

Lemma combine_nil_iff {A B : Type} (l : list A) (l' : list B) :
  combine l l' = [] <-> l = [] \/ l' = [].
Proof.
  destruct l, l'; simpl; split; intros E; auto; try discriminate;
    destruct E; discriminate.
Qed.

Lemma norm_weights_nil_iff (weights : list R) :
  norm_weights weights = [] <-> weights = [].
Proof.
  unfold norm_weights. destruct weights; simpl; split; intros E;
    reflexivity || discriminate.
Qed.

(** X1: [_statistics] raises [UnboundLocalError] for [row_value] exactly
    when there are no rows or no weights, and returns a pair otherwise. *)
Theorem statistics_raises_iff_empty (values : list (list R)) (weights : list R) :
  (values = [] \/ weights = [] ->
   _statistics values weights = Raise (UnboundLocalError "row_value")) /\
  (values <> [] -> weights <> [] ->
   exists mean stddev, _statistics values weights = Ok (mean, stddev)).
Proof.
  unfold _statistics. split.
  - intros E.
    assert (N : loop_last (combine values (norm_weights weights)) = None).
    { apply loop_last_none, combine_nil_iff.
      destruct E; [now left | right; now apply norm_weights_nil_iff]. }
    now rewrite N.
  - intros NV NW.
    destruct (loop_last _) as [[row w]|] eqn:E.
    + destruct (stddev_loop _ _). eauto.
    + apply (proj1 (loop_last_none _)) in E.
      apply (proj1 (combine_nil_iff _ _)) in E.
      destruct E as [E|E]; [contradiction|].
      apply (proj1 (norm_weights_nil_iff _)) in E. contradiction.
Qed.

Lemma combine_firstn_length {A B : Type} (l : list A) (l' : list B) :
  combine (firstn (length l') l) l' = combine l l'.
Proof.
  revert l'. induction l as [|x l IH]; intros [|y l']; simpl; try reflexivity.
  now rewrite IH.
Qed.

(** X2: rows of the matrix beyond the number of weights do not enter the
    result of [_statistics]: [zip] stops at the shorter sequence. *)
Theorem statistics_ignores_unweighted_rows
  (values : list (list R)) (weights : list R) :
  _statistics (firstn (length weights) values) weights
  = _statistics values weights.
Proof.
  unfold _statistics.
  rewrite <- (norm_weights_length weights).
  now rewrite combine_firstn_length.
Qed.

(** ** Bounds on the weighted statistics *)

Lemma big_sum_le (n : nat) (f g : nat -> R) :
  (forall i, (i < n)%nat -> f i <= g i) -> big_sum n f <= big_sum n g.
Proof.
  induction n as [|n IH]; intros L; simpl; [lra|].
  assert (big_sum n f <= big_sum n g) by (apply IH; intros; apply L; lia).
  assert (f n <= g n) by (apply L; lia). lra.
Qed.


Lemma big_sum_scale_l (n : nat) (f : nat -> R) (c : R) :
  big_sum n (fun i => c * f i) = c * big_sum n f.
Proof. induction n as [|n IH]; simpl; [lra | rewrite IH; lra]. Qed.

Lemma normalized_weight_nonneg (weights : list R) (M i : nat) :
  Forall (fun w => 0 <= w) weights ->
  0 < big_sum M (fun k => nth k weights 0) ->
  0 <= normalized_weight weights M i.
Proof.
  intros F P. unfold normalized_weight.
  apply Rmult_le_pos; [|left; now apply Rinv_0_lt_compat].
  destruct (Nat.lt_ge_cases i (length weights)) as [L|L].
  - rewrite Forall_forall in F. apply F. now apply nth_In.
  - rewrite nth_overflow by assumption. lra.
Qed.





Lemma big_sum_term_le (n : nat) (f : nat -> R) (i : nat) :
  (forall k, (k < n)%nat -> 0 <= f k) -> (i < n)%nat -> f i <= big_sum n f.
Proof.
  induction n as [|n IH]; intros P Hi; [lia|]. simpl.
  assert (0 <= big_sum n f) by (apply big_sum_nonneg; intros; apply P; lia).
  assert (0 <= f n) by (apply P; lia).
  destruct (Nat.eq_dec i n) as [->|Ne]; [lra|].
  assert (f i <= big_sum n f) by (apply IH; [intros; apply P|]; lia). lra.
Qed.

(** The squared normalized weights of non-negative weights sum to at most
    1. *)
Lemma spec_w2_bounds (weights : list R) (M : nat) :
  Forall (fun w => 0 <= w) weights ->
  0 < big_sum M (fun k => nth k weights 0) ->
  0 <= spec_w2 weights M <= 1.
Proof.
  intros F P.
  assert (One := normalized_weight_sum weights M (Rgt_not_eq _ _ P)).
  assert (NN : forall i, 0 <= normalized_weight weights M i)
    by (intros; now apply normalized_weight_nonneg).
  unfold spec_w2. split.
  - apply big_sum_nonneg. intros i _. now apply Rmult_le_pos.
  - rewrite <- One. apply big_sum_le. intros i Hi.
    assert (normalized_weight weights M i <= 1).
    { rewrite <- One. apply big_sum_term_le; [intros; apply NN | exact Hi]. }
    specialize (NN i). nra.
Qed.

Lemma spec_numerator_nonneg (values : list (list R)) (weights : list R)
  (M N : nat) :
  (0 < N)%nat ->
  Forall (fun w => 0 <= w) weights ->
  0 < big_sum M (fun k => nth k weights 0) ->
  0 <= spec_numerator values weights M N.
Proof.
  intros PN F P. unfold spec_numerator.
  apply Rmult_le_pos.
  - apply big_sum_nonneg. intros i _.
    apply Rmult_le_pos; [now apply normalized_weight_nonneg|].
    apply big_sum_nonneg. intros j _.
    match goal with |- 0 <= ?a * ?a => apply (Rle_0_sqr a) end.
  - left. apply Rinv_0_lt_compat, lt_0_INR. lia.
Qed.

(** X4: with non-negative weights of positive sum and at least two
    realizations per location, the bias correction of [_statistics] divides
    by a positive number, at least [1 - 1/N], and the standard deviation
    returned is the non-negative root of the quotient. *)
Theorem statistics_denominator_positive
  (values : list (list R)) (weights : list R) (M N : nat) :
  length values = M ->
  length weights = M ->
  Forall (fun row => length row = N) values ->
  (2 <= N)%nat ->
  Forall (fun w => 0 <= w) weights ->
  0 < np_sum weights ->
  exists mean stddev,
    _statistics values weights = Ok (mean, stddev) /\
    0 < 1 - 1 / INR N <= 1 - spec_w2 weights M / INR N /\
    0 <= stddev /\
    stddev * stddev * (1 - spec_w2 weights M / INR N)
    = spec_numerator values weights M N.
Proof.
  intros LV LW S PN F P.
  assert (P' : 0 < big_sum M (fun k => nth k weights 0))
    by (rewrite <- LW, <- np_sum_big_sum; exact P).
  assert (W := spec_w2_bounds weights M F P').
  assert (NN : 0 <= spec_numerator values weights M N)
    by (apply spec_numerator_nonneg; [lia | assumption | assumption]).
  assert (N2 : 2 <= INR N) by (change 2 with (INR 2); apply le_INR; lia).
  assert (IN : 0 < / INR N <= / 2).
  { split; [apply Rinv_0_lt_compat; lra|].
    apply Rinv_le_contravar; lra. }
  assert (D : 0 < 1 - 1 / INR N <= 1 - spec_w2 weights M / INR N).
  { unfold Rdiv. split; [lra|]. nra. }
  rewrite (statistics_closed_form values weights M N); try assumption;
    [|now apply (positive_sum_positive_length weights)].
  do 2 eexists. split; [reflexivity|]. split; [exact D|].
  unfold pooled_stddev. split; [apply sqrt_pos|].
  rewrite sqrt_sqrt.
  - unfold Rdiv. rewrite Rmult_assoc, Rinv_l; lra.
  - apply Rmult_le_pos; [exact NN|].
    left. apply Rinv_0_lt_compat. lra.
Qed.

Lemma statistics_denominator_positive_witness :
  exists mean stddev,
    _statistics [[1; 3]; [2; 4]] [1; 3] = Ok (mean, stddev) /\
    0 < 1 - 1 / INR 2 <= 1 - spec_w2 [1; 3] 2 / INR 2 /\
    0 <= stddev /\
    stddev * stddev * (1 - spec_w2 [1; 3] 2 / INR 2)
    = spec_numerator [[1; 3]; [2; 4]] [1; 3] 2 2.
Proof.
  apply (statistics_denominator_positive [[1; 3]; [2; 4]] [1; 3] 2 2).
  - reflexivity.
  - reflexivity.
  - repeat constructor.
  - lia.
  - repeat constructor; lra.
  - unfold np_sum. simpl. lra.
Defined.




(** ** The matrix of realizations *)

Section Realizations.

Context {G : Type} `{Generator G}.

Lemma rng_normal_size (g g' : G) (mean stddev : R) (n : nat) (xs : list R) :
  rng_normal g mean stddev n = (Ok xs, g') -> length xs = n.
Proof.
  unfold rng_normal. destruct (Rlt_dec stddev 0); [discriminate|].
  assert (L := draw_normal_size g mean stddev n).
  destruct (draw_normal g mean stddev n) as [ys g1]. simpl in L.
  now intros [= <- _].
Qed.

Lemma set_row_shape (r n : nat) (xs : list R) (a : list (list R)) :
  Forall (fun row => length row = n) a -> length xs = n ->
  Forall (fun row => length row = n) (set_row r xs a).
Proof.
  intros F L. revert r. induction F as [|row a Hr F IH]; intros r; simpl.
  - constructor.
  - destruct r; constructor; auto.
Qed.

Lemma fill_rows_shape (g g' : G) (n r : nat) (params : list (R * R))
  (a out : list (list R)) :
  Forall (fun row => length row = n) a ->
  fill_rows g n r params a = (Ok out, g') ->
  length out = length a /\ Forall (fun row => length row = n) out.
Proof.
  revert g r a. induction params as [|[m s] rest IH]; intros g r a F; simpl.
  - intros [= <- _]. now split.
  - destruct (rng_normal g m s n) as [[xs|e] g1] eqn:E; [|discriminate].
    intros E'. apply IH in E'.
    + now rewrite set_row_length in E'.
    + apply set_row_shape; [exact F | eapply rng_normal_size, E].
Qed.

Lemma np_empty_shape (memory : nat -> nat -> R) (m n : nat) :
  Forall (fun row => length row = n) (np_empty memory m n).
Proof.
  unfold np_empty. apply Forall_map, Forall_forall. intros r _.
  now rewrite length_map, length_seq.
Qed.

Lemma map_map_shape (f : R -> R) (n : nat) (a : list (list R)) :
  Forall (fun row => length row = n) a ->
  Forall (fun row => length row = n) (map (map f) a).
Proof.
  intros F. apply Forall_map. eapply Forall_impl; [|exact F].
  intros row L. now rewrite length_map.
Qed.

(** What a successful call has gone through: the sampling, the transform
    before the weighting, the weighting and the transform after it. *)
Lemma montecarlo_ok_inv (fresh : G) (memory : nat -> nat -> R)
  (generator_means generator_stddevs generator_weights : list R)
  (dg ds : string) (n_realizations : nat) (rng : option G)
  (fn_mean fn_stddev : R) (realizations : list (list R)) (g' : G) :
  montecarlo_fn fresh memory generator_means generator_stddevs
                generator_weights dg ds n_realizations rng
  = (Ok (fn_mean, fn_stddev, realizations), g') ->
  exists raw weighted mean,
    fill_rows (generator_used fresh rng) n_realizations 0
              (combine generator_means generator_stddevs)
              (np_empty memory (length generator_means) n_realizations)
    = (Ok raw, g') /\
    weighted
    = (if (dg =? "lognormal")%string && (ds =? "normal")%string
       then map (map exp) raw
       else if (dg =? "normal")%string && (ds =? "lognormal")%string
            then map (map ln) raw
            else raw) /\
    _statistics weighted generator_weights = Ok (mean, fn_stddev) /\
    (fn_mean, realizations)
    = (if (ds =? "lognormal")%string
       then (exp mean, map (map exp) weighted)
       else (mean, weighted)).
Proof.
  unfold montecarlo_fn. fold (generator_used fresh rng).
  destruct (negb (recognized dg)); [discriminate|].
  destruct (negb (recognized ds)); [discriminate|].
  destruct (fill_rows _ _ _ _ _) as [[raw|e] g1]; [|discriminate].
  remember (if (dg =? "lognormal")%string && (ds =? "normal")%string
            then map (map exp) raw
            else if (dg =? "normal")%string && (ds =? "lognormal")%string
                 then map (map ln) raw
                 else raw) as weighted eqn:W.
  destruct (_statistics weighted generator_weights) as [[m sd]|e] eqn:S;
    [|discriminate].
  intros E. exists raw, weighted, m.
  assert (E' : g1 = g' /\ sd = fn_stddev
               /\ (fn_mean, realizations)
                  = (if (ds =? "lognormal")%string
                     then (exp m, map (map exp) weighted)
                     else (m, weighted))).
  { destruct (ds =? "lognormal")%string; injection E as <- <- <- <-;
      repeat split. }
  destruct E' as (<- & <- & R).
  split; [reflexivity|]. split; [exact W|]. split; [exact S | exact R].
Qed.

End Realizations.

(** X6: the matrix a successful call of [montecarlo_fn] returns has one
    row per generator mean and [n_realizations] entries in every row. *)
Theorem montecarlo_realizations_shape {G : Type} `{Generator G}
  (fresh : G) (memory : nat -> nat -> R)
  (generator_means generator_stddevs generator_weights : list R)
  (dg ds : string) (n_realizations : nat) (rng : option G)
  (fn_mean fn_stddev : R) (realizations : list (list R)) (g' : G) :
  montecarlo_fn fresh memory generator_means generator_stddevs
                generator_weights dg ds n_realizations rng
  = (Ok (fn_mean, fn_stddev, realizations), g') ->
  length realizations = length generator_means /\
  Forall (fun row => length row = n_realizations) realizations.
Proof.
  intros E. apply montecarlo_ok_inv in E.
  destruct E as (raw & weighted & mean & F & W & _ & R).
  apply fill_rows_shape in F; [|apply np_empty_shape].
  destruct F as [L S]. rewrite np_empty_length in L.
  assert (LW : length weighted = length generator_means
               /\ Forall (fun row => length row = n_realizations) weighted).
  { subst weighted.
    destruct (_ && _); [|destruct (_ && _)];
      rewrite ?length_map; split; try assumption;
      now apply map_map_shape. }
  destruct LW as [LW SW].
  destruct (ds =? "lognormal")%string; injection R as _ ->;
    rewrite ?length_map; split; try assumption.
  now apply map_map_shape.
Qed.


Lemma exp_ln_rows (raw : list (list R)) :
  Forall (Forall (fun x => 0 < x)) raw ->
  map (map exp) (map (map ln) raw) = raw.
Proof.
  intros P. rewrite map_map. rewrite <- (map_id raw) at 2.
  apply map_ext_in. intros row I.
  rewrite Forall_forall in P. specialize (P row I).
  rewrite map_map. rewrite <- (map_id row) at 2.
  apply map_ext_in. intros x Ix. rewrite Forall_forall in P.
  apply exp_ln. now apply P.
Qed.

(** X8: for normal generators and lognormal spatial statistics the
    logarithm before the weighting and the exponential after it cancel:
    when every sample drawn is positive, the realizations returned are the
    samples as drawn. *)
Theorem montecarlo_normal_to_lognormal_round_trip {G : Type} `{Generator G}
  (fresh : G) (memory : nat -> nat -> R)
  (generator_means generator_stddevs generator_weights : list R)
  (n_realizations : nat) (rng : option G)
  (raw : list (list R)) (g1 : G)
  (fn_mean fn_stddev : R) (realizations : list (list R)) (g' : G) :
  fill_rows (generator_used fresh rng) n_realizations 0
            (combine generator_means generator_stddevs)
            (np_empty memory (length generator_means) n_realizations)
  = (Ok raw, g1) ->
  Forall (Forall (fun x => 0 < x)) raw ->
  montecarlo_fn fresh memory generator_means generator_stddevs
                generator_weights "normal" "lognormal" n_realizations rng
  = (Ok (fn_mean, fn_stddev, realizations), g') ->
  realizations = raw /\ g' = g1.
Proof.
  intros F P E. apply montecarlo_ok_inv in E.
  destruct E as (raw' & weighted & mean & F' & W & _ & R).
  rewrite F in F'. injection F' as <- <-.
  simpl in W, R. subst weighted. injection R as _ ->.
  split; [now apply exp_ln_rows | reflexivity].
Qed.

(** A run on one location with the counting generator: the samples 2 and 3
    are drawn, weighted in log-space, and returned. *)
Lemma example_montecarlo_sampling :
  fill_rows (generator_used 0%nat (Some 1%nat)) 2 0 (combine [1] [1])
            (np_empty (fun _ _ => 0) (length [1]) 2)
  = (Ok [[1 + 1 * INR 1; 1 + 1 * INR 2]], 3%nat).
Proof.
  cbn [fill_rows combine generator_used]. unfold rng_normal.
  destruct (Rlt_dec 1 0); [lra | reflexivity].
Qed.

Lemma example_montecarlo_run :
  montecarlo_fn 0%nat (fun _ _ => 0) [1] [1] [1] "normal" "lognormal" 2
                (Some 1%nat)
  = (Ok (exp (spec_mean [[ln (1 + 1 * INR 1); ln (1 + 1 * INR 2)]] [1] 1 2),
         pooled_stddev [[ln (1 + 1 * INR 1); ln (1 + 1 * INR 2)]] [1] 1 2,
         [[exp (ln (1 + 1 * INR 1)); exp (ln (1 + 1 * INR 2))]]),
     3%nat).
Proof.
  assert (S := example_montecarlo_sampling).
  unfold generator_used in S. unfold montecarlo_fn.
  cbn [recognized existsb String.eqb Ascii.eqb Bool.eqb negb orb andb].
  rewrite S. cbn [map].
  rewrite (statistics_closed_form _ [1] 1 2)
    by (reflexivity || lia || (repeat constructor)).
  reflexivity.
Qed.

Lemma montecarlo_realizations_shape_witness :
  length [[exp (ln (1 + 1 * INR 1)); exp (ln (1 + 1 * INR 2))]]
  = length [1]
  /\ Forall (fun row => length row = 2%nat)
            [[exp (ln (1 + 1 * INR 1)); exp (ln (1 + 1 * INR 2))]].
Proof.
  apply (montecarlo_realizations_shape 0%nat (fun _ _ => 0) [1] [1] [1]
           "normal" "lognormal" 2 (Some 1%nat)
           (exp (spec_mean [[ln (1 + 1 * INR 1); ln (1 + 1 * INR 2)]] [1] 1 2))
           (pooled_stddev [[ln (1 + 1 * INR 1); ln (1 + 1 * INR 2)]] [1] 1 2)
           [[exp (ln (1 + 1 * INR 1)); exp (ln (1 + 1 * INR 2))]] 3%nat).
  exact example_montecarlo_run.
Defined.


Lemma montecarlo_normal_to_lognormal_round_trip_witness :
  [[exp (ln (1 + 1 * INR 1)); exp (ln (1 + 1 * INR 2))]]
  = [[1 + 1 * INR 1; 1 + 1 * INR 2]] /\ 3%nat = 3%nat.
Proof.
  apply (montecarlo_normal_to_lognormal_round_trip
           0%nat (fun _ _ => 0) [1] [1] [1] 2 (Some 1%nat)
           [[1 + 1 * INR 1; 1 + 1 * INR 2]] 3%nat
           (exp (spec_mean [[ln (1 + 1 * INR 1); ln (1 + 1 * INR 2)]] [1] 1 2))
           (pooled_stddev [[ln (1 + 1 * INR 1); ln (1 + 1 * INR 2)]] [1] 1 2)
           [[exp (ln (1 + 1 * INR 1)); exp (ln (1 + 1 * INR 2))]] 3%nat).
  - exact example_montecarlo_sampling.
  - repeat constructor; simpl; lra.
  - exact example_montecarlo_run.
Defined.

(** ** Regions after reconstruction *)

Lemma region_reconstructed_nonneg (vor : Voronoi) (center : point) (radius : R)
  (p1 region : Z) (out_region : list Z) (out_vertices : list point) :
  region_reconstructed vor center radius p1 region out_region out_vertices ->
  Forall (fun v => (0 <= v)%Z) out_region.
Proof.
  intros (rv & _ & [[FB ->]|(_ & base & fars & _ & _ & vs & order & _ & P & -> & _)]).
  - apply Forall_forall. intros v Hv.
    rewrite forallb_forall in FB. specialize (FB v Hv). lia.
  - apply Forall_map, Forall_forall. intros i Hi.
    apply (Permutation_in _ P) in Hi. apply in_seq in Hi.
    assert (C := collected_nonneg rv base (length fars)).
    rewrite Forall_forall in C. apply C, nth_In. lia.
Qed.

(** X9: [_voronoi_finite_polygons_2d] returns one region per entry of
    [vor.point_region], and no region returned has a negative vertex index:
    no vertex at infinity is left. *)
Theorem voronoi_finite_polygons_no_infinity
  (vor : Voronoi) (radius : option R)
  (new_regions : list (list Z)) (new_vertices : list point) :
  _voronoi_finite_polygons_2d vor radius = Ok (new_regions, new_vertices) ->
  length new_regions = length (point_region vor) /\
  Forall (Forall (fun v => (0 <= v)%Z)) new_regions.
Proof.
  unfold _voronoi_finite_polygons_2d. intros E.
  apply bind_ok in E. destruct E as (r & _ & E).
  apply region_loop_spec in E.
  destruct E as (regs & added & -> & -> & L & Each).
  split; [exact L|]. simpl.
  apply Forall_forall. intros out_region I.
  apply In_nth_error in I. destruct I as (k & Nk).
  assert (Hk : (k < length (point_region vor))%nat).
  { rewrite <- L. apply nth_error_Some. congruence. }
  destruct (nth_error (point_region vor) k) as [region|] eqn:Nr;
    [|apply nth_error_None in Nr; lia].
  destruct (Each k region Nr) as (o & No & Ro).
  rewrite Nk in No. injection No as <-.
  eapply region_reconstructed_nonneg, Ro.
Qed.

Lemma voronoi_finite_polygons_no_infinity_witness :
  length example_regions = length (point_region three_sensor_voronoi) /\
  Forall (Forall (fun v => (0 <= v)%Z)) example_regions.
Proof.
  apply (voronoi_finite_polygons_no_infinity three_sensor_voronoi
           (Some 1000000) example_regions example_vertices).
  exact example_finite_polygons.
Defined.

(** ** What the reconstructor raises *)











(** ** Culling keeps or logs every coordinate *)

Lemma filter_partition {A : Type} (f : A -> bool) (l : list A) :
  Permutation (filter f l ++ filter (fun x => negb (f x)) l) l.
Proof.
  induction l as [|x l IH]; simpl; [constructor|].
  destruct (f x); simpl.
  - now constructor.
  - rewrite <- Permutation_middle. now constructor.
Qed.

(** X11: [_cull_points] loses no coordinate: the points kept and the
    points logged as discarded are together the coordinates of the object,
    and there is one index per point kept. *)
Theorem cull_points_partition {Mask : Type} `{Collaborators Mask}
  (self : HvsrSpatial) (mask : Mask)
  (passing_points : list point) (passing_indices : list nat)
  (discarded : list point) :
  _cull_points self mask = (passing_points, passing_indices, discarded) ->
  Permutation (passing_points ++ discarded) (coordinates self) /\
  length passing_points = length passing_indices /\
  (length passing_points + length discarded
   = length (coordinates self))%nat.
Proof.
  rewrite cull_points_spec. intros [= <- <- <-].
  assert (P := filter_partition (contains mask) (coordinates self)).
  split; [exact P|]. split.
  - rewrite <- (filter_by_position (contains mask) (coordinates self) 0).
    rewrite length_map. f_equal. apply filter_ext. intros i.
    now rewrite Nat.sub_0_r.
  - rewrite <- length_app. now apply Permutation_length.
Qed.

Lemma cull_points_partition_witness :
  Permutation (coordinates three_sensors ++ []) (coordinates three_sensors) /\
  length (coordinates three_sensors) = length [0; 1; 2]%nat /\
  (length (coordinates three_sensors) + length (@nil point)
   = length (coordinates three_sensors))%nat.
Proof.
  apply (cull_points_partition three_sensors square_mask
           (coordinates three_sensors) [0; 1; 2]%nat []).
  exact example_cull.
Defined.

(** ** Shapes accepted *)

Lemma forallb_same_length (rows : list (list R)) (k : nat) :
  forallb (fun row => length row =? k)%nat rows = true
  <-> Forall (fun row => length row = k) rows.
Proof.
  rewrite forallb_forall, Forall_forall.
  split; intros E row I; specialize (E row I); now apply Nat.eqb_eq.
Qed.

(** [as_points] succeeds on a non-empty list of rows of length 2, and on
    nothing else. *)
Lemma as_points_ok_iff (one_dim : exn) (msg : string) (rows : list (list R))
  (pts : list point) :
  as_points one_dim msg rows = Ok pts
  <-> rows <> []
      /\ Forall (fun row => length row = 2%nat) rows
      /\ pts = map (fun row => (nth 0 row 0, nth 1 row 0)) rows.
Proof.
  unfold as_points. destruct rows as [|first rest].
  - split; [discriminate | intros [N _]; contradiction].
  - destruct (forallb _ (first :: rest)) eqn:Same; cbn [negb].
    + apply forallb_same_length in Same.
      destruct (length first =? 2)%nat eqn:Two; cbn [negb].
      * apply Nat.eqb_eq in Two. rewrite Two in Same.
        split.
        -- intros [= <-]. repeat split; [discriminate | exact Same].
        -- intros (_ & _ & ->). reflexivity.
      * apply Nat.eqb_neq in Two. split; [discriminate|].
        intros (_ & F & _). inversion F. contradiction.
    + split; [discriminate|]. intros (_ & F & _).
      assert (Same' : forallb (fun row => length row =? length first)%nat
                              (first :: rest) = true).
      { apply forallb_same_length. inversion F as [|? ? L2 F']. subst.
        rewrite L2. exact F. }
      congruence.
Qed.

(** X12: [HvsrSpatial.__init__] accepts exactly the lists of at least
    three rows of two numbers, keeps the rows as coordinates in their order,
    and raises [ValueError] for one or two such rows. *)
Theorem init_accepts_iff (coords : list (list R)) :
  ((exists self, __init__ coords = Ok self)
   <-> (3 <= length coords)%nat
       /\ Forall (fun row => length row = 2%nat) coords) /\
  (forall self,
      __init__ coords = Ok self ->
      coordinates self = map (fun row => (nth 0 row 0, nth 1 row 0)) coords) /\
  (Forall (fun row => length row = 2%nat) coords ->
   (0 < length coords < 3)%nat ->
   __init__ coords = Raise (ValueError "Requires at least three coordinates.")).
Proof.
  unfold __init__. split; [split|split].
  - intros (self & E). apply bind_ok in E. destruct E as (pts & EP & E).
    apply as_points_ok_iff in EP. destruct EP as (_ & F & ->).
    rewrite length_map in E.
    destruct (length coords <? 3)%nat eqn:L; [discriminate|].
    apply Nat.ltb_ge in L. now split.
  - intros (L & F).
    assert (EP : as_points (ValueError "not enough values to unpack")
                   "coordinates must have shape (N,2)." coords
                 = Ok (map (fun row => (nth 0 row 0, nth 1 row 0)) coords)).
    { apply as_points_ok_iff. repeat split; [|exact F].
      destruct coords; [simpl in L; lia | discriminate]. }
    rewrite EP. cbn [bind]. rewrite length_map.
    apply Nat.ltb_ge in L. rewrite L. eauto.
  - intros self E. apply bind_ok in E. destruct E as (pts & EP & E).
    apply as_points_ok_iff in EP. destruct EP as (_ & F & ->).
    destruct (_ <? 3)%nat; [discriminate|]. now injection E as <-.
  - intros F L.
    assert (EP : as_points (ValueError "not enough values to unpack")
                   "coordinates must have shape (N,2)." coords
                 = Ok (map (fun row => (nth 0 row 0, nth 1 row 0)) coords)).
    { apply as_points_ok_iff. repeat split; [|exact F].
      destruct coords; [simpl in L; lia | discriminate]. }
    rewrite EP. cbn [bind]. rewrite length_map.
    assert (L' : (length coords <? 3)%nat = true) by (apply Nat.ltb_lt; lia).
    now rewrite L'.
Qed.

(** X13: [_boundary_to_mask] accepts exactly the non-empty lists of rows of
    two numbers and returns the convex hull of these points; it raises
    [IndexError] for an empty boundary and [ValueError] for rows of another
    common length. *)
Theorem boundary_to_mask_accepts_iff {Mask : Type} `{Collaborators Mask}
  (boundary : list (list R)) :
  (forall mask,
      _boundary_to_mask boundary = Ok mask
      <-> boundary <> []
          /\ Forall (fun row => length row = 2%nat) boundary
          /\ mask = convex_hull
                      (map (fun row => (nth 0 row 0, nth 1 row 0)) boundary)) /\
  (boundary = [] -> _boundary_to_mask boundary = Raise IndexError) /\
  (forall k, boundary <> [] -> k <> 2%nat ->
             Forall (fun row => length row = k) boundary ->
             _boundary_to_mask boundary
             = Raise (ValueError "boundary must have shape (N,2).")).
Proof.
  unfold _boundary_to_mask. split; [|split].
  - intros mask. split.
    + intros E. apply bind_ok in E. destruct E as (pts & EP & E).
      apply as_points_ok_iff in EP. destruct EP as (N & F & ->).
      injection E as <-. auto.
    + intros (N & F & ->).
      assert (EP : as_points IndexError "boundary must have shape (N,2)."
                     boundary
                   = Ok (map (fun row => (nth 0 row 0, nth 1 row 0)) boundary))
        by (apply as_points_ok_iff; auto).
      now rewrite EP.
  - now intros ->.
  - intros k N K F. unfold as_points.
    destruct boundary as [|first rest]; [contradiction|].
    assert (L : length first = k) by (now inversion F).
    assert (Same : forallb (fun row => length row =? length first)%nat
                           (first :: rest) = true)
      by (apply forallb_same_length; now rewrite L).
    rewrite Same. cbn [negb].
    assert (Two : (length first =? 2)%nat = false)
      by (apply Nat.eqb_neq; lia).
    now rewrite Two.
Qed.

(** ** Regions and weights *)

(** X14: the weights of [spatial_weights] belong to the regions
    [bounded_voronoi] returns for the same boundary: same indices, one
    weight per region in the same order, each the area of the region over
    the area of the mask. *)
Theorem spatial_weights_follow_bounded_voronoi
  {Mask : Type} `{Collaborators Mask}
  (self : HvsrSpatial) (boundary : list (list R))
  (weights : list R) (indices : list nat) :
  spatial_weights self boundary "voronoi" = Ok (weights, indices) ->
  exists mask regions,
    _boundary_to_mask boundary = Ok mask /\
    bounded_voronoi self boundary = Ok (regions, indices) /\
    length weights = length regions /\
    Forall2 (fun region w =>
               exists a, region_area region = Ok a /\ w = a / mask_area mask)
            regions weights.
Proof.
  unfold spatial_weights. cbn [String.eqb Ascii.eqb Bool.eqb]. intros E.
  apply bind_ok in E. destruct E as ([w i] & E & E').
  injection E' as <- <-.
  apply voronoi_weights_spec in E.
  destruct E as (mask & regions & areas & EM & EB & FA & ->).
  exists mask, regions. split; [exact EM|]. split; [|split].
  - unfold bounded_voronoi. now rewrite EM.
  - rewrite length_map. symmetry. eapply Forall2_length, FA.
  - clear -FA. induction FA as [|r a rs l E _ IH]; simpl; constructor;
      [now exists a | exact IH].
Qed.

Lemma spatial_weights_follow_bounded_voronoi_witness :
  exists mask regions,
    _boundary_to_mask square_boundary = Ok mask /\
    bounded_voronoi three_sensors square_boundary
    = Ok (regions, [0; 1; 2]%nat) /\
    length example_weight_vector = length regions /\
    Forall2 (fun region w =>
               exists a, region_area region = Ok a /\ w = a / mask_area mask)
            regions example_weight_vector.
Proof.
  apply (spatial_weights_follow_bounded_voronoi three_sensors square_boundary).
  unfold spatial_weights. cbn [String.eqb Ascii.eqb Bool.eqb].
  now rewrite example_weights.
Defined.

(** ** The [TimeSeries] constructor *)







(** ** Trimming *)

(** The times of the samples never decrease when the step is not negative:
    the last one is the largest. *)
Lemma max_of_times (d : R) (k a : nat) :
  0 <= d ->
  fold_left Rmax (map (fun i => INR i * d) (seq (S a) k)) (INR a * d)
  = INR (a + k) * d.
Proof.
  intros P. revert a. induction k as [|k IH]; intros a.
  - simpl. now rewrite Nat.add_0_r.
  - cbn [seq map fold_left]. rewrite Rmax_right.
    + rewrite IH. f_equal. f_equal. lia.
    + rewrite S_INR. nra.
Qed.

(** With a negative step they never increase: the first one is the
    largest. *)
Lemma max_of_times_backwards (d : R) (k a : nat) :
  d < 0 ->
  fold_left Rmax (map (fun i => INR i * d) (seq (S a) k)) (INR a * d)
  = INR a * d.
Proof.
  intros P. revert a. induction k as [|k IH]; intros a.
  - reflexivity.
  - cbn [seq map fold_left]. rewrite Rmax_left.
    + assert (G : forall l m,
                 m <= INR a * d ->
                 Forall (fun i => (a < i)%nat) l ->
                 fold_left Rmax (map (fun i => INR i * d) l) m <= INR a * d).
      { induction l as [|x l IHl]; intros m M F; [exact M|].
        inversion F as [|? ? Hx Hl]; subst. cbn [map fold_left].
        apply IHl; [|exact Hl].
        apply Rmax_lub; [exact M|].
        apply lt_INR in Hx. nra. }
      clear IH. apply Rle_antisym.
      * apply G; [lra|]. apply Forall_forall. intros x I.
        apply in_seq in I. lia.
      * assert (M : forall l m, m <= fold_left Rmax l m).
        { induction l as [|x l IHl]; intros m; [apply Rle_refl|]. cbn [fold_left].
          eapply Rle_trans; [apply (Rmax_l m x)|apply IHl]. }
        apply M.
    + rewrite S_INR. nra.
Qed.

Lemma time_length (self : Series.TimeSeries) :
  length (Series.time self) = Series.nsamples self.
Proof. unfold Series.time. now rewrite length_map, length_seq. Qed.

Lemma time_nth (self : Series.TimeSeries) (i : nat) :
  (i < Series.nsamples self)%nat ->
  nth i (Series.time self) 0 = INR i * Series.dt self.
Proof.
  intros L. unfold Series.time.
  rewrite (nth_indep _ 0 ((fun i => INR i * Series.dt self) 0%nat))
    by (rewrite length_map, length_seq; exact L).
  rewrite (map_nth (fun i => INR i * Series.dt self)).
  now rewrite seq_nth.
Qed.

(** The largest time of a record that is not empty. *)
Lemma max_of_time (d : R) (n : nat) :
  fold_left Rmax (map (fun i => INR i * d) (seq 1 n)) (INR 0 * d)
  = if Rle_dec 0 d then INR n * d else 0.
Proof.
  destruct (Rle_dec 0 d) as [P|P].
  - now rewrite max_of_times.
  - rewrite max_of_times_backwards by lra. simpl. lra.
Qed.

(** X16: a record with at least one sample is trimmed exactly when
    0 <= start_time < end_time <= (nsamples - 1) * dt; every other request
    raises IndexError. *)
Theorem trim_succeeds_iff (self : Series.TimeSeries)
  (start_time end_time : R) :
  (0 < Series.nsamples self)%nat ->
  ((exists trimmed, Series.trim self start_time end_time = Series.Return trimmed)
   <-> 0 <= start_time < end_time
       /\ end_time <= INR (Series.nsamples self - 1) * Series.dt self) /\
  (forall e, Series.trim self start_time end_time = Series.Throw e ->
             exists msg, e = Series.IndexError msg).
Proof.
  intros N. unfold Series.trim, Series.time.
  destruct (Series.nsamples self) as [|n] eqn:En; [lia|].
  cbn [seq map]. rewrite (max_of_time (Series.dt self) n).
  replace (S n - 1)%nat with n by lia.
  assert (Q : ~ 0 <= Series.dt self -> INR n * Series.dt self <= 0).
  { intros Q. pose proof (pos_INR n). nra. }
  destruct (Rlt_dec start_time 0) as [A|A].
  { split; [split|].
    - intros (t & E). discriminate.
    - intros [[? ?] ?]. lra.
    - intros e [= <-]. eauto. }
  destruct (Rle_dec end_time start_time) as [B|B].
  { split; [split|].
    - intros (t & E). discriminate.
    - intros [[? ?] ?]. lra.
    - intros e [= <-]. eauto. }
  destruct (Rlt_dec (if Rle_dec 0 (Series.dt self)
                     then INR n * Series.dt self else 0) end_time) as [C|C].
  { split; [split|].
    - intros (t & E). discriminate.
    - intros [[? ?] ?]. destruct (Rle_dec 0 (Series.dt self)) as [P|P].
      + lra.
      + specialize (Q P). lra.
    - intros e [= <-]. eauto. }
  split; [split|].
  - intros _. destruct (Rle_dec 0 (Series.dt self)) as [P|P]; lra.
  - intros _. eauto.
  - intros e E. discriminate.
Qed.

Lemma trim_succeeds_iff_witness :
  ((exists trimmed,
       Series.trim {| Series.amplitude := [5; 6; 7; 8]; Series.dt := 2 |} 2 4
       = Series.Return trimmed)
   <-> 0 <= 2 < 4
       /\ 4 <= INR (Series.nsamples
                      {| Series.amplitude := [5; 6; 7; 8]; Series.dt := 2 |} - 1)
               * Series.dt {| Series.amplitude := [5; 6; 7; 8]; Series.dt := 2 |})
  /\
  (forall e,
      Series.trim {| Series.amplitude := [5; 6; 7; 8]; Series.dt := 2 |} 2 4
      = Series.Throw e ->
      exists msg, e = Series.IndexError msg).
Proof.
  apply (trim_succeeds_iff
           {| Series.amplitude := [5; 6; 7; 8]; Series.dt := 2 |} 2 4).
  cbn. lia.
Defined.

(** *** The position of the smallest entry *)

(** What the scan for the smallest entry keeps: the best position so far
    holds the best value, nothing seen is smaller, and everything before it
    is strictly larger. *)
Lemma argmin_from_spec (l pre : list R) (best_i : nat) (best : R) :
  (best_i < length pre)%nat ->
  nth best_i pre 0 = best ->
  (forall j, (j < length pre)%nat -> best <= nth j pre 0) ->
  (forall j, (j < best_i)%nat -> best < nth j pre 0) ->
  let r := Series.argmin_from best_i best (length pre) l in
  (r < length (pre ++ l))%nat /\
  (forall j, (j < length (pre ++ l))%nat ->
             nth r (pre ++ l) 0 <= nth j (pre ++ l) 0) /\
  (forall j, (j < r)%nat -> nth r (pre ++ l) 0 < nth j (pre ++ l) 0).
Proof.
  revert pre best_i best.
  induction l as [|x l IH]; intros pre best_i best L V A B; cbn zeta.
  - cbn [Series.argmin_from]. rewrite app_nil_r. subst best. auto.
  - cbn [Series.argmin_from].
    replace (pre ++ x :: l) with ((pre ++ [x]) ++ l)
      by (rewrite <- app_assoc; reflexivity).
    replace (S (length pre)) with (length (pre ++ [x]))
      by (rewrite length_app; simpl; lia).
    assert (Lx : nth (length pre) (pre ++ [x]) 0 = x).
    { rewrite app_nth2 by lia. now rewrite Nat.sub_diag. }
    destruct (Rlt_dec x best) as [S|S].
    + apply IH.
      * rewrite length_app. simpl. lia.
      * exact Lx.
      * intros j J. rewrite length_app in J. simpl in J.
        destruct (Nat.eq_dec j (length pre)) as [->|D].
        -- rewrite Lx. lra.
        -- rewrite app_nth1 by lia. specialize (A j ltac:(lia)). lra.
      * intros j J. rewrite app_nth1 by lia. specialize (A j J). lra.
    + apply IH.
      * rewrite length_app. simpl. lia.
      * rewrite app_nth1 by lia. exact V.
      * intros j J. rewrite length_app in J. simpl in J.
        destruct (Nat.eq_dec j (length pre)) as [->|D].
        -- rewrite Lx. lra.
        -- rewrite app_nth1 by lia. apply A. lia.
      * intros j J. rewrite app_nth1 by lia. now apply B.
Qed.

(** [np.argmin] returns the first position of the smallest entry. *)
Lemma np_argmin_spec (l : list R) :
  l <> [] ->
  (Series.np_argmin l < length l)%nat /\
  (forall j, (j < length l)%nat ->
             nth (Series.np_argmin l) l 0 <= nth j l 0) /\
  (forall j, (j < Series.np_argmin l)%nat ->
             nth (Series.np_argmin l) l 0 < nth j l 0).
Proof.
  destruct l as [|x l]; [congruence|]. intros _.
  unfold Series.np_argmin.
  apply (argmin_from_spec l [x] 0 x).
  - simpl. lia.
  - reflexivity.
  - intros j J. simpl in J. replace j with 0%nat by lia. simpl. lra.
  - intros j J. lia.
Qed.

(** The position is determined by these two properties. *)
Lemma np_argmin_unique (l : list R) (i : nat) :
  (i < length l)%nat ->
  (forall j, (j < length l)%nat -> nth i l 0 <= nth j l 0) ->
  (forall j, (j < i)%nat -> nth i l 0 < nth j l 0) ->
  Series.np_argmin l = i.
Proof.
  intros L A B.
  assert (N : l <> []) by (destruct l; [simpl in L; lia|congruence]).
  destruct (np_argmin_spec l N) as (L' & A' & B').
  destruct (Nat.lt_trichotomy (Series.np_argmin l) i) as [C|[C|C]].
  - specialize (B _ C). specialize (A' i L). lra.
  - exact C.
  - specialize (B' _ C). specialize (A _ L'). lra.
Qed.

(** The distances of the sample times to a requested time. *)
Lemma distance_nth (self : Series.TimeSeries) (t : R) (j : nat) :
  (j < Series.nsamples self)%nat ->
  nth j (map (fun u => Rabs (u - t)) (Series.time self)) 0
  = Rabs (INR j * Series.dt self - t).
Proof.
  intros J.
  rewrite (nth_indep _ 0 ((fun u => Rabs (u - t)) 0))
    by (rewrite length_map, time_length; exact J).
  rewrite (map_nth (fun u => Rabs (u - t))). now rewrite time_nth.
Qed.

Lemma distance_length (self : Series.TimeSeries) (t : R) :
  length (map (fun u => Rabs (u - t)) (Series.time self))
  = Series.nsamples self.
Proof. now rewrite length_map, time_length. Qed.

(** The sample nearest to the time of sample [a] is sample [a]. *)
Lemma nearest_to_instant (self : Series.TimeSeries) (a : nat) :
  0 < Series.dt self ->
  (a < Series.nsamples self)%nat ->
  Series.np_argmin
    (map (fun u => Rabs (u - INR a * Series.dt self)) (Series.time self)) = a.
Proof.
  intros P A. apply np_argmin_unique.
  - now rewrite distance_length.
  - intros j J. rewrite distance_length in J.
    rewrite !distance_nth by assumption.
    replace (INR a * Series.dt self - INR a * Series.dt self) with 0 by lra.
    rewrite Rabs_R0. apply Rabs_pos.
  - intros j J. rewrite !distance_nth by lia.
    replace (INR a * Series.dt self - INR a * Series.dt self) with 0 by lra.
    rewrite Rabs_R0. apply Rabs_pos_lt.
    apply lt_INR in J. nra.
Qed.

(** A slice between two positions that are not negative. *)
Lemma slice_between {A : Type} (l : list A) (a b : nat) :
  Series.slice l (Z.of_nat a) (Z.of_nat b)
  = firstn (b - a) (skipn a l).
Proof.
  unfold Series.slice.
  destruct (Z.ltb_spec (Z.of_nat a) 0) as [?|_]; [lia|].
  destruct (Z.ltb_spec (Z.of_nat b) 0) as [?|_]; [lia|].
  destruct (Nat.le_gt_cases a (length l)) as [La|La].
  - rewrite (Z.min_l (Z.of_nat a)) by lia. rewrite Nat2Z.id.
    destruct (Nat.le_gt_cases b (length l)) as [Lb|Lb].
    + rewrite Z.min_l by lia. f_equal. lia.
    + rewrite Z.min_r by lia.
      rewrite !firstn_all2; [reflexivity| |]; rewrite length_skipn; lia.
  - rewrite (Z.min_r (Z.of_nat a)) by lia. rewrite Nat2Z.id.
    rewrite (skipn_all2 (n := a)) by lia.
    rewrite skipn_all. now rewrite !firstn_nil.
Qed.

(** Trimming between the times of two samples. *)
Lemma trim_between_samples (self : Series.TimeSeries) (a b : nat) :
  0 < Series.dt self ->
  (a < b < Series.nsamples self)%nat ->
  Series.trim self (INR a * Series.dt self) (INR b * Series.dt self)
  = Series.Return
      {| Series.amplitude := firstn (b - a + 1) (skipn a (Series.amplitude self));
         Series.dt := Series.dt self |}.
Proof.
  intros P [AB BN].
  pose proof (nearest_to_instant self a P ltac:(lia)) as Ea.
  pose proof (nearest_to_instant self b P BN) as Eb.
  unfold Series.trim. rewrite Ea, Eb. clear Ea Eb.
  unfold Series.time.
  destruct (Series.nsamples self) as [|n] eqn:En; [lia|].
  cbn [seq map]. rewrite (max_of_time (Series.dt self) n).
  destruct (Rle_dec 0 (Series.dt self)) as [_|?]; [|lra].
  pose proof (pos_INR a). apply lt_INR in AB.
  assert (BN' : INR b <= INR n) by (apply le_INR; lia).
  destruct (Rlt_dec (INR a * Series.dt self) 0) as [?|_]; [nra|].
  destruct (Rle_dec (INR b * Series.dt self) (INR a * Series.dt self))
    as [?|_]; [nra|].
  destruct (Rlt_dec (INR n * Series.dt self) (INR b * Series.dt self))
    as [?|_]; [nra|].
  replace (Z.of_nat b + 1)%Z with (Z.of_nat (b + 1)) by lia.
  rewrite slice_between. do 3 f_equal. apply INR_lt in AB. lia.
Qed.

(** X17: trimming a record with a positive step between the times of its
    samples a < b keeps exactly the samples a, a+1, ..., b and the step. *)
Theorem trim_at_sample_times (self : Series.TimeSeries) (a b : nat) :
  0 < Series.dt self ->
  (a < b < Series.nsamples self)%nat ->
  exists trimmed,
    Series.trim self (INR a * Series.dt self) (INR b * Series.dt self)
    = Series.Return trimmed
    /\ Series.dt trimmed = Series.dt self
    /\ Series.nsamples trimmed = (b - a + 1)%nat
    /\ forall i, (i <= b - a)%nat ->
                 nth_error (Series.amplitude trimmed) i
                 = nth_error (Series.amplitude self) (a + i).
Proof.
  intros P AB. eexists. split; [now apply trim_between_samples|].
  cbn [Series.dt Series.amplitude]. unfold Series.nsamples.
  cbn [Series.amplitude]. split; [reflexivity|]. split.
  - rewrite length_firstn, length_skipn. unfold Series.nsamples in AB. lia.
  - intros i I. rewrite nth_error_firstn.
    destruct (Nat.ltb_spec i (b - a + 1)) as [_|?]; [|lia].
    now rewrite nth_error_skipn.
Qed.

Lemma trim_at_sample_times_witness :
  exists trimmed,
    Series.trim {| Series.amplitude := [5; 6; 7; 8]; Series.dt := 2 |}
                (INR 1 * 2) (INR 2 * 2)
    = Series.Return trimmed
    /\ Series.dt trimmed = 2
    /\ Series.nsamples trimmed = (2 - 1 + 1)%nat
    /\ forall i, (i <= 2 - 1)%nat ->
                 nth_error (Series.amplitude trimmed) i
                 = nth_error [5; 6; 7; 8] (1 + i).
Proof.
  apply (trim_at_sample_times
           {| Series.amplitude := [5; 6; 7; 8]; Series.dt := 2 |} 1 2).
  - cbn [Series.dt]. lra.
  - cbn. lia.
Defined.

(** X18: trimming over the whole record, from time zero to the time of the
    last sample, changes nothing. *)
Theorem trim_whole_record (self : Series.TimeSeries) :
  0 < Series.dt self ->
  (2 <= Series.nsamples self)%nat ->
  Series.trim self 0 (INR (Series.nsamples self - 1) * Series.dt self)
  = Series.Return self.
Proof.
  intros P N.
  replace 0 with (INR 0 * Series.dt self) at 1 by (simpl; lra).
  rewrite trim_between_samples by (assumption || lia).
  f_equal. destruct self as [amp d]. unfold Series.nsamples in *.
  cbn [Series.amplitude Series.dt] in *. f_equal.
  rewrite skipn_O. apply firstn_all2. lia.
Qed.

Lemma trim_whole_record_witness :
  Series.trim {| Series.amplitude := [5; 6; 7; 8]; Series.dt := 2 |} 0
    (INR (Series.nsamples
            {| Series.amplitude := [5; 6; 7; 8]; Series.dt := 2 |} - 1)
     * Series.dt {| Series.amplitude := [5; 6; 7; 8]; Series.dt := 2 |})
  = Series.Return {| Series.amplitude := [5; 6; 7; 8]; Series.dt := 2 |}.
Proof.
  apply (trim_whole_record
           {| Series.amplitude := [5; 6; 7; 8]; Series.dt := 2 |}).
  - cbn [Series.dt]. lra.
  - cbn. lia.
Defined.

(** What a trim that returns has checked, and what it returns. *)
Lemma trim_ok_inv (self : Series.TimeSeries) (start_time end_time : R)
  (trimmed : Series.TimeSeries) :
  Series.trim self start_time end_time = Series.Return trimmed ->
  0 <= start_time < end_time
  /\ end_time <= INR (Series.nsamples self - 1) * Series.dt self
  /\ 0 < Series.dt self
  /\ (2 <= Series.nsamples self)%nat
  /\ trimmed
     = {| Series.amplitude :=
            Series.slice (Series.amplitude self)
              (Z.of_nat (Series.np_argmin
                           (map (fun t => Rabs (t - start_time))
                                (Series.time self))))
              (Z.of_nat (Series.np_argmin
                           (map (fun t => Rabs (t - end_time))
                                (Series.time self))) + 1);
          Series.dt := Series.dt self |}.
Proof.
  unfold Series.trim, Series.time. intros E.
  destruct (Series.nsamples self) as [|n] eqn:En; [discriminate|].
  cbn [seq map] in E. rewrite (max_of_time (Series.dt self) n) in E.
  destruct (Rlt_dec start_time 0) as [?|A]; [discriminate|].
  destruct (Rle_dec end_time start_time) as [?|B]; [discriminate|].
  destruct (Rlt_dec (if Rle_dec 0 (Series.dt self)
                     then INR n * Series.dt self else 0) end_time) as [?|C];
    [discriminate|].
  injection E as <-.
  replace (S n - 1)%nat with n by lia.
  destruct (Rle_dec 0 (Series.dt self)) as [P|P]; [|lra].
  assert (Q : 0 < INR n * Series.dt self) by lra.
  assert (P' : 0 < Series.dt self) by (pose proof (pos_INR n); nra).
  assert (N : (0 < n)%nat).
  { destruct n; [simpl in Q; lra|lia]. }
  repeat split; try lra; try lia.
Qed.

(** The nearest sample moves forward with the requested time. *)
Lemma nearest_monotone (self : Series.TimeSeries) (t1 t2 : R) :
  0 < Series.dt self ->
  (0 < Series.nsamples self)%nat ->
  t1 < t2 ->
  (Series.np_argmin (map (fun u => Rabs (u - t1)) (Series.time self))
   <= Series.np_argmin (map (fun u => Rabs (u - t2)) (Series.time self)))%nat.
Proof.
  intros P N T.
  set (s := Series.np_argmin (map (fun u => Rabs (u - t1)) (Series.time self))).
  set (e := Series.np_argmin (map (fun u => Rabs (u - t2)) (Series.time self))).
  assert (N1 : map (fun u => Rabs (u - t1)) (Series.time self) <> []).
  { intros Z. apply (f_equal (@length R)) in Z.
    rewrite distance_length in Z. simpl in Z. lia. }
  assert (N2 : map (fun u => Rabs (u - t2)) (Series.time self) <> []).
  { intros Z. apply (f_equal (@length R)) in Z.
    rewrite distance_length in Z. simpl in Z. lia. }
  destruct (np_argmin_spec _ N1) as (Ls & _ & Bs).
  destruct (np_argmin_spec _ N2) as (Le & Ae & _).
  fold s in Ls, Bs. fold e in Le, Ae.
  rewrite distance_length in Ls, Le, Ae.
  destruct (Nat.le_gt_cases s e) as [?|G]; [assumption|exfalso].
  specialize (Bs e G). specialize (Ae s Ls).
  rewrite !distance_nth in Bs, Ae by assumption.
  apply lt_INR in G.
  assert (G' : INR e * Series.dt self < INR s * Series.dt self) by nra.
  revert Bs Ae G' T. generalize (INR e * Series.dt self).
  generalize (INR s * Series.dt self). intros x y.
  unfold Rabs.
  destruct (Rcase_abs (x - t1)), (Rcase_abs (y - t1)),
    (Rcase_abs (y - t2)), (Rcase_abs (x - t2)); lra.
Qed.

(** X19: whatever a trim returns is a run of consecutive samples of the
    record that is not empty, with the same step: it runs from the sample
    nearest to [start_time] to the sample nearest to [end_time]. *)
Theorem trim_keeps_nearest_run (self : Series.TimeSeries)
  (start_time end_time : R) (trimmed : Series.TimeSeries) :
  Series.trim self start_time end_time = Series.Return trimmed ->
  exists s e,
    (s <= e < Series.nsamples self)%nat
    /\ trimmed
       = {| Series.amplitude :=
              firstn (e - s + 1) (skipn s (Series.amplitude self));
            Series.dt := Series.dt self |}
    /\ Series.nsamples trimmed = (e - s + 1)%nat
    /\ (forall j, (j < Series.nsamples self)%nat ->
                  Rabs (INR s * Series.dt self - start_time)
                  <= Rabs (INR j * Series.dt self - start_time))
    /\ (forall j, (j < Series.nsamples self)%nat ->
                  Rabs (INR e * Series.dt self - end_time)
                  <= Rabs (INR j * Series.dt self - end_time)).
Proof.
  intros E. apply trim_ok_inv in E.
  destruct E as (T & _ & P & N & ->).
  set (s := Series.np_argmin
              (map (fun u => Rabs (u - start_time)) (Series.time self))).
  set (e := Series.np_argmin
              (map (fun u => Rabs (u - end_time)) (Series.time self))).
  assert (SE : (s <= e)%nat)
    by (apply nearest_monotone; [assumption|lia|lra]).
  assert (N1 : map (fun u => Rabs (u - start_time)) (Series.time self) <> []).
  { intros Z. apply (f_equal (@length R)) in Z.
    rewrite distance_length in Z. simpl in Z. lia. }
  assert (N2 : map (fun u => Rabs (u - end_time)) (Series.time self) <> []).
  { intros Z. apply (f_equal (@length R)) in Z.
    rewrite distance_length in Z. simpl in Z. lia. }
  destruct (np_argmin_spec _ N1) as (Ls & As & _).
  destruct (np_argmin_spec _ N2) as (Le & Ae & _).
  fold s in Ls, As. fold e in Le, Ae.
  rewrite distance_length in Ls, Le, As, Ae.
  exists s, e.
  replace (Z.of_nat e + 1)%Z with (Z.of_nat (e + 1)) by lia.
  rewrite slice_between.
  replace (e + 1 - s)%nat with (e - s + 1)%nat by lia.
  split; [lia|]. split; [reflexivity|]. split; [|split].
  - unfold Series.nsamples in *. cbn [Series.amplitude].
    rewrite length_firstn, length_skipn. lia.
  - intros j J. specialize (As j J).
    now rewrite !distance_nth in As by assumption.
  - intros j J. specialize (Ae j J).
    now rewrite !distance_nth in Ae by assumption.
Qed.

Lemma trim_keeps_nearest_run_witness :
  exists s e,
    (s <= e < 4)%nat
    /\ {| Series.amplitude := firstn (2 - 1 + 1) (skipn 1 [5; 6; 7; 8]);
          Series.dt := 2 |}
       = {| Series.amplitude := firstn (e - s + 1) (skipn s [5; 6; 7; 8]);
            Series.dt := 2 |}
    /\ Series.nsamples
         {| Series.amplitude := firstn (2 - 1 + 1) (skipn 1 [5; 6; 7; 8]);
            Series.dt := 2 |} = (e - s + 1)%nat
    /\ (forall j, (j < 4)%nat ->
                  Rabs (INR s * 2 - INR 1 * 2) <= Rabs (INR j * 2 - INR 1 * 2))
    /\ (forall j, (j < 4)%nat ->
                  Rabs (INR e * 2 - INR 2 * 2) <= Rabs (INR j * 2 - INR 2 * 2)).
Proof.
  apply (trim_keeps_nearest_run
           {| Series.amplitude := [5; 6; 7; 8]; Series.dt := 2 |}
           (INR 1 * 2) (INR 2 * 2)).
  apply (trim_between_samples
           {| Series.amplitude := [5; 6; 7; 8]; Series.dt := 2 |} 1 2).
  - cbn [Series.dt]. lra.
  - cbn. lia.
Defined.

(** ** Splitting into windows *)

Lemma split_loop_length (self : Series.TimeSeries) (samples_per_window : Z)
  (count : nat) (start_idx : Z) :
  length (Series.split_loop self samples_per_window count start_idx) = count.
Proof.
  revert start_idx. induction count as [|c IH]; intros s; simpl.
  - reflexivity.
  - now rewrite IH.
Qed.

(** Window [i] of the loop starts [i] strides after the first one; a stride
    is one sample less than a window. *)
Lemma split_loop_nth (self : Series.TimeSeries) (samples_per_window : Z)
  (count : nat) (start_idx : Z) (i : nat) :
  (i < count)%nat ->
  nth_error (Series.split_loop self samples_per_window count start_idx) i
  = Some {| Series.amplitude :=
              Series.slice (Series.amplitude self)
                (start_idx + Z.of_nat i * (samples_per_window - 1))
                (start_idx + Z.of_nat i * (samples_per_window - 1)
                 + samples_per_window);
            Series.dt := Series.dt self |}.
Proof.
  revert start_idx i. induction count as [|c IH]; intros s i L; [lia|].
  destruct i as [|i]; cbn [Series.split_loop nth_error].
  - do 3 f_equal; lia.
  - rewrite IH by lia. do 3 f_equal; lia.
Qed.

(** What a split that returns has checked, and what it returns. *)
Lemma split_ok_inv (int_quotient : R -> R -> Z) (self : Series.TimeSeries)
  (window_length_in_seconds : R) (windows : list Series.TimeSeries) :
  Series.split int_quotient self window_length_in_seconds
  = Series.Return windows ->
  exists q : nat,
    int_quotient window_length_in_seconds (Series.dt self) = Z.of_nat q
    /\ (1 <= q <= Series.nsamples self)%nat
    /\ Series.dt self <> 0
    /\ windows
       = Series.split_loop self (Z.of_nat q + 1)
           (Series.nsamples self / q) 0.
Proof.
  unfold Series.split.
  destruct (Req_EM_T (Series.dt self) 0) as [?|D]; [discriminate|].
  set (z := int_quotient window_length_in_seconds (Series.dt self)).
  replace (z + 1 - 1)%Z with z by lia.
  destruct (Z.eqb_spec z 0) as [?|NZ]; [discriminate|].
  destruct (Z.ltb_spec (Z.quot (Z.of_nat (Series.nsamples self)) z) 1)
    as [?|W]; [discriminate|].
  intros [= <-].
  assert (P : (0 < z)%Z).
  { destruct (Z.lt_trichotomy z 0) as [N|[?|?]]; [exfalso|lia|assumption].
    replace z with (- - z)%Z in W by lia.
    rewrite Z.quot_opp_r in W by lia.
    pose proof (Z.quot_pos (Z.of_nat (Series.nsamples self)) (- z)
                  ltac:(lia) ltac:(lia)). lia. }
  rewrite Z.quot_div_nonneg in * by lia.
  exists (Z.to_nat z). rewrite Z2Nat.id by lia.
  split; [reflexivity|]. split; [|split; [assumption|]].
  - split; [lia|].
    destruct (Z.le_gt_cases z (Z.of_nat (Series.nsamples self))) as [?|G];
      [lia|].
    rewrite Z.div_small in W by lia. lia.
  - f_equal. rewrite <- (Z2Nat.id z) at 1 by lia.
    rewrite <- Nat2Z.inj_div. now rewrite Nat2Z.id.
Qed.

(** X20: with a step other than zero and q = int(window_length / dt), a
    split raises ZeroDivisionError when q is 0, ValueError when q is
    negative or exceeds the number of samples, and otherwise returns
    nsamples / q windows (the integer quotient), each with the step of the
    record. *)
Theorem split_outcome (int_quotient : R -> R -> Z)
  (self : Series.TimeSeries) (window_length_in_seconds : R) :
  Series.dt self <> 0 ->
  let q := int_quotient window_length_in_seconds (Series.dt self) in
  let n := Z.of_nat (Series.nsamples self) in
  match Series.split int_quotient self window_length_in_seconds with
  | Series.Return windows =>
      (1 <= q <= n)%Z
      /\ Z.of_nat (length windows) = (n / q)%Z
      /\ Forall (fun w => Series.dt w = Series.dt self) windows
  | Series.Throw Series.ZeroDivisionError => q = 0%Z
  | Series.Throw (Series.ValueError _) => (q < 0 \/ n < q)%Z
  | Series.Throw _ => False
  end.
Proof.
  intros D q n.
  destruct (Series.split int_quotient self window_length_in_seconds)
    as [windows|e] eqn:E.
  - apply split_ok_inv in E. destruct E as (k & Q & K & _ & ->).
    fold q in Q. subst n. rewrite Q. split; [lia|]. split.
    + rewrite split_loop_length. apply Nat2Z.inj_div.
    + apply Forall_forall. intros w I.
      apply In_nth_error in I. destruct I as (i & I).
      assert (L : (i < Series.nsamples self / k)%nat).
      { assert (S : nth_error
                      (Series.split_loop self (Z.of_nat k + 1)
                         (Series.nsamples self / k) 0) i <> None)
          by congruence.
        apply nth_error_Some in S.
        now rewrite split_loop_length in S. }
      rewrite split_loop_nth in I by exact L. now injection I as <-.
  - unfold Series.split in E. cbv zeta in E. fold q n in E.
    destruct (Req_EM_T (Series.dt self) 0) as [?|_]; [contradiction|].
    replace (q + 1 - 1)%Z with q in E by lia.
    destruct (Z.eqb_spec q 0) as [Z|NZ]; [now injection E as <-|].
    destruct (Z.ltb_spec (Z.quot n q) 1) as [W|W];
      [injection E as <-|discriminate].
    destruct (Z.lt_trichotomy q 0) as [N|[?|P]]; [now left|lia|right].
    rewrite Z.quot_div_nonneg in W by lia.
    destruct (Z.lt_ge_cases n q) as [?|G]; [assumption|exfalso].
    pose proof (Z.div_le_mono q n q P G) as M.
    rewrite Z.div_same in M by lia. lia.
Qed.

Lemma split_outcome_witness :
  let q := exact_int_quotient 3 (Series.dt ten_samples) in
  let n := Z.of_nat (Series.nsamples ten_samples) in
  match Series.split exact_int_quotient ten_samples 3 with
  | Series.Return windows =>
      (1 <= q <= n)%Z
      /\ Z.of_nat (length windows) = (n / q)%Z
      /\ Forall (fun w => Series.dt w = Series.dt ten_samples) windows
  | Series.Throw Series.ZeroDivisionError => q = 0%Z
  | Series.Throw (Series.ValueError _) => (q < 0 \/ n < q)%Z
  | Series.Throw _ => False
  end.
Proof.
  apply (split_outcome exact_int_quotient ten_samples 3).
  cbn [ten_samples Series.dt]. lra.
Defined.

(** The windows of a split that returns, in closed form. *)
Lemma split_windows_closed_form (int_quotient : R -> R -> Z)
  (self : Series.TimeSeries) (window_length_in_seconds : R)
  (windows : list Series.TimeSeries) :
  Series.split int_quotient self window_length_in_seconds
  = Series.Return windows ->
  exists q : nat,
    int_quotient window_length_in_seconds (Series.dt self) = Z.of_nat q
    /\ (1 <= q <= Series.nsamples self)%nat
    /\ length windows = (Series.nsamples self / q)%nat
    /\ forall i, (i < Series.nsamples self / q)%nat ->
         nth_error windows i
         = Some {| Series.amplitude :=
                     firstn (q + 1) (skipn (i * q) (Series.amplitude self));
                   Series.dt := Series.dt self |}.
Proof.
  intros E. apply split_ok_inv in E. destruct E as (q & Q & K & _ & ->).
  exists q. split; [exact Q|]. split; [exact K|].
  split; [apply split_loop_length|].
  intros i L. rewrite split_loop_nth by exact L.
  replace (0 + Z.of_nat i * (Z.of_nat q + 1 - 1))%Z
    with (Z.of_nat (i * q)) by lia.
  replace (Z.of_nat (i * q) + (Z.of_nat q + 1))%Z
    with (Z.of_nat (i * q + (q + 1))) by lia.
  rewrite slice_between. do 3 f_equal. lia.
Qed.

(** Below the number of windows, a window and its stride fit in the
    record. *)
Lemma window_fits (n q i : nat) :
  (1 <= q)%nat -> (i < n / q)%nat -> (i * q + q <= n)%nat.
Proof.
  intros Q L. pose proof (Nat.Div0.mul_div_le n q). nia.
Qed.

(** X21: window i of a split with q = int(window_length / dt) holds the
    samples i*q, i*q + 1, ..., i*q + q of the record (as many of them as
    the record has) and the step of the record. *)
Theorem split_window_contents (int_quotient : R -> R -> Z)
  (self : Series.TimeSeries) (window_length_in_seconds : R)
  (windows : list Series.TimeSeries) (i : nat) (w : Series.TimeSeries) :
  Series.split int_quotient self window_length_in_seconds
  = Series.Return windows ->
  nth_error windows i = Some w ->
  let q := Z.to_nat (int_quotient window_length_in_seconds (Series.dt self)) in
  w = {| Series.amplitude :=
           firstn (q + 1) (skipn (i * q) (Series.amplitude self));
         Series.dt := Series.dt self |}
  /\ forall j, (j <= q)%nat ->
               nth_error (Series.amplitude w) j
               = nth_error (Series.amplitude self) (i * q + j).
Proof.
  intros E I q.
  apply split_windows_closed_form in E.
  destruct E as (k & Q & K & L & W).
  assert (Eq : q = k) by (unfold q; rewrite Q; apply Nat2Z.id).
  rewrite Eq. clear q Eq.
  assert (Li : (i < Series.nsamples self / k)%nat).
  { rewrite <- L. apply nth_error_Some. congruence. }
  rewrite (W i Li) in I. injection I as <-. split; [reflexivity|].
  intros j J. cbn [Series.amplitude]. rewrite nth_error_firstn.
  destruct (Nat.ltb_spec j (k + 1)) as [_|?]; [|lia].
  now rewrite nth_error_skipn.
Qed.

(** Three seconds of a record sampled every second are three steps. *)
Lemma example_quotient_3 : exact_int_quotient 3 1 = 3%Z.
Proof.
  unfold exact_int_quotient. cbv zeta.
  replace (3 / 1) with 3 by lra.
  destruct (Rle_dec 0 3) as [_|?]; [|lra].
  symmetry. apply Int_part_spec. lra.
Qed.

Lemma example_quotient_5 : exact_int_quotient 5 1 = 5%Z.
Proof.
  unfold exact_int_quotient. cbv zeta.
  replace (5 / 1) with 5 by lra.
  destruct (Rle_dec 0 5) as [_|?]; [|lra].
  symmetry. apply Int_part_spec. lra.
Qed.

(** Ten samples in windows of three seconds: three windows of four
    samples. *)
Lemma example_split_3 :
  Series.split exact_int_quotient ten_samples 3
  = Series.Return
      [ {| Series.amplitude := [0; 1; 2; 3]; Series.dt := 1 |};
        {| Series.amplitude := [3; 4; 5; 6]; Series.dt := 1 |};
        {| Series.amplitude := [6; 7; 8; 9]; Series.dt := 1 |} ].
Proof.
  unfold Series.split. cbn [ten_samples Series.dt].
  destruct (Req_EM_T 1 0) as [?|_]; [lra|].
  rewrite example_quotient_3. reflexivity.
Qed.

(** Ten samples in windows of five seconds: the second window is one
    sample short. *)
Lemma example_split_5 :
  Series.split exact_int_quotient ten_samples 5
  = Series.Return
      [ {| Series.amplitude := [0; 1; 2; 3; 4; 5]; Series.dt := 1 |};
        {| Series.amplitude := [5; 6; 7; 8; 9]; Series.dt := 1 |} ].
Proof.
  unfold Series.split. cbn [ten_samples Series.dt].
  destruct (Req_EM_T 1 0) as [?|_]; [lra|].
  rewrite example_quotient_5. reflexivity.
Qed.

Lemma split_window_contents_witness :
  let q := Z.to_nat (exact_int_quotient 3 (Series.dt ten_samples)) in
  {| Series.amplitude := [3; 4; 5; 6]; Series.dt := 1 |}
  = {| Series.amplitude :=
         firstn (q + 1) (skipn (1 * q) (Series.amplitude ten_samples));
       Series.dt := Series.dt ten_samples |}
  /\ forall j, (j <= q)%nat ->
               nth_error [3; 4; 5; 6] j
               = nth_error (Series.amplitude ten_samples) (1 * q + j).
Proof.
  apply (split_window_contents exact_int_quotient ten_samples 3 _ 1
           {| Series.amplitude := [3; 4; 5; 6]; Series.dt := 1 |}
           example_split_3).
  reflexivity.
Defined.

(** X22: every window of a split has q + 1 samples, q = int(window_length
    / dt), except the last one when q divides the number of samples of the
    record: that one has only q. *)
Theorem split_window_sizes (int_quotient : R -> R -> Z)
  (self : Series.TimeSeries) (window_length_in_seconds : R)
  (windows : list Series.TimeSeries) (i : nat) (w : Series.TimeSeries) :
  Series.split int_quotient self window_length_in_seconds
  = Series.Return windows ->
  nth_error windows i = Some w ->
  let q := Z.to_nat (int_quotient window_length_in_seconds (Series.dt self)) in
  Series.nsamples w
  = if ((S i =? length windows) && (Series.nsamples self mod q =? 0))%nat
    then q else (q + 1)%nat.
Proof.
  intros E I q.
  apply split_windows_closed_form in E.
  destruct E as (k & Q & K & L & W).
  assert (Eq : q = k) by (unfold q; rewrite Q; apply Nat2Z.id).
  rewrite Eq. clear q Eq.
  assert (Li : (i < Series.nsamples self / k)%nat).
  { rewrite <- L. apply nth_error_Some. congruence. }
  rewrite (W i Li) in I. injection I as <-.
  unfold Series.nsamples at 1. cbn [Series.amplitude].
  rewrite length_firstn, length_skipn. fold (Series.nsamples self).
  rewrite L.
  pose proof (Nat.div_mod_eq (Series.nsamples self) k) as M.
  pose proof (window_fits _ _ _ (proj1 K) Li) as F.
  destruct (Nat.eqb_spec (S i) (Series.nsamples self / k)) as [Last|NotLast].
  - rewrite <- Last in M.
    destruct (Nat.eqb_spec (Series.nsamples self mod k) 0) as [Z|NZ];
      cbn [andb]; nia.
  - cbn [andb].
    assert (G : (S i < Series.nsamples self / k)%nat) by lia.
    pose proof (window_fits _ _ _ (proj1 K) G). nia.
Qed.

Lemma split_window_sizes_witness :
  let q := Z.to_nat (exact_int_quotient 5 (Series.dt ten_samples)) in
  Series.nsamples {| Series.amplitude := [5; 6; 7; 8; 9]; Series.dt := 1 |}
  = if ((2 =? 2) && (Series.nsamples ten_samples mod q =? 0))%nat
    then q else (q + 1)%nat.
Proof.
  apply (split_window_sizes exact_int_quotient ten_samples 5 _ 1
           {| Series.amplitude := [5; 6; 7; 8; 9]; Series.dt := 1 |}
           example_split_5).
  reflexivity.
Defined.

(** X23: in a split, the last sample of each window is the first sample of
    the window after it. *)
Theorem split_windows_overlap (int_quotient : R -> R -> Z)
  (self : Series.TimeSeries) (window_length_in_seconds : R)
  (windows : list Series.TimeSeries) (i : nat)
  (w next : Series.TimeSeries) :
  Series.split int_quotient self window_length_in_seconds
  = Series.Return windows ->
  nth_error windows i = Some w ->
  nth_error windows (S i) = Some next ->
  exists x,
    nth_error (Series.amplitude w) (Series.nsamples w - 1) = Some x
    /\ nth_error (Series.amplitude next) 0 = Some x.
Proof.
  intros E I J.
  apply split_windows_closed_form in E.
  destruct E as (k & Q & K & L & W).
  assert (Lj : (S i < Series.nsamples self / k)%nat).
  { rewrite <- L. apply nth_error_Some. congruence. }
  rewrite (W i ltac:(lia)) in I. injection I as <-.
  rewrite (W (S i) Lj) in J. injection J as <-.
  pose proof (window_fits _ _ _ (proj1 K) Lj) as F.
  unfold Series.nsamples at 1. cbn [Series.amplitude].
  rewrite length_firstn, length_skipn. fold (Series.nsamples self).
  replace (Nat.min (k + 1) (Series.nsamples self - i * k) - 1)%nat
    with k by nia.
  rewrite !nth_error_firstn.
  destruct (Nat.ltb_spec k (k + 1)) as [_|?]; [|lia].
  destruct (Nat.ltb_spec 0 (k + 1)) as [_|?]; [|lia].
  rewrite !nth_error_skipn.
  replace (k + i * k + 0)%nat with (i * k + k)%nat by lia.
  destruct (nth_error (Series.amplitude self) (i * k + k)) as [x|] eqn:X.
  - now exists x.
  - apply nth_error_None in X. unfold Series.nsamples in *. nia.
Qed.

Lemma split_windows_overlap_witness :
  exists x,
    nth_error [0; 1; 2; 3]
      (Series.nsamples {| Series.amplitude := [0; 1; 2; 3]; Series.dt := 1 |}
       - 1)
    = Some x
    /\ nth_error [3; 4; 5; 6] 0 = Some x.
Proof.
  apply (split_windows_overlap exact_int_quotient ten_samples 3 _ 0
           {| Series.amplitude := [0; 1; 2; 3]; Series.dt := 1 |}
           {| Series.amplitude := [3; 4; 5; 6]; Series.dt := 1 |}
           example_split_3).
  - reflexivity.
  - reflexivity.
Defined.

(** ** Comparing records *)

(** A record is similar to itself. *)
Lemma is_similar_refl (a : Series.TimeSeries) :
  Series.is_similar a (Series.IsTimeSeries a) = true.
Proof.
  unfold Series.is_similar.
  replace (Series.dt a - Series.dt a) with 0 by lra. rewrite Rabs_R0.
  destruct (Rlt_dec (1 / 100000000) 0) as [?|_]; [lra|].
  now rewrite Nat.eqb_refl.
Qed.

(** X24: between records, [is_similar] is reflexive and symmetric, but it
    is a tolerance on the step and so not transitive; no other object is
    similar to a record. *)
Theorem is_similar_is_a_tolerance :
  (forall a, Series.is_similar a (Series.IsTimeSeries a) = true)
  /\ (forall a b, Series.is_similar a (Series.IsTimeSeries b)
                  = Series.is_similar b (Series.IsTimeSeries a))
  /\ (forall a, Series.is_similar a Series.Other = false)
  /\ (exists a b c,
         Series.is_similar a (Series.IsTimeSeries b) = true
         /\ Series.is_similar b (Series.IsTimeSeries c) = true
         /\ Series.is_similar a (Series.IsTimeSeries c) = false).
Proof.
  split; [|split; [|split]].
  - exact is_similar_refl.
  - intros a b. unfold Series.is_similar.
    rewrite (Rabs_minus_sym (Series.dt b) (Series.dt a)).
    now rewrite (Nat.eqb_sym (Series.nsamples b) (Series.nsamples a)).
  - reflexivity.
  - exists {| Series.amplitude := []; Series.dt := 0 |},
           {| Series.amplitude := []; Series.dt := 1 / 100000000 |},
           {| Series.amplitude := []; Series.dt := 2 / 100000000 |}.
    unfold Series.is_similar. cbn [Series.dt Series.nsamples Series.amplitude].
    repeat split.
    + destruct (Rlt_dec _ _) as [H|_]; [|reflexivity].
      rewrite Rabs_pos_eq in H; lra.
    + destruct (Rlt_dec _ _) as [H|_]; [|reflexivity].
      rewrite Rabs_pos_eq in H; lra.
    + destruct (Rlt_dec _ _) as [_|H]; [reflexivity|].
      rewrite Rabs_pos_eq in H; lra.
Qed.

(** [np.allclose] entry by entry. *)
Lemma allclose_spec (a b : list R) :
  length a = length b ->
  Series.allclose a b = true
  <-> forall i, (i < length a)%nat ->
        Rabs (nth i a 0 - nth i b 0)
        <= 1 / 100000000 + 1 / 100000 * Rabs (nth i b 0).
Proof.
  unfold Series.allclose. revert b.
  induction a as [|x a IH]; intros [|y b] L; try discriminate.
  - split; [intros _ i I; simpl in I; lia|reflexivity].
  - injection L as L. cbn [combine forallb]. rewrite andb_true_iff, (IH b L).
    split.
    + intros [H T] [|i] I.
      * cbn [nth]. now destruct (Rle_dec _ _).
      * cbn [nth]. apply T. simpl in I. lia.
    + intros H. split.
      * specialize (H 0%nat ltac:(simpl; lia)). cbn [nth] in H.
        now destruct (Rle_dec _ _).
      * intros i I. apply (H (S i)). simpl. lia.
Qed.

Lemma allclose_refl (a : list R) : Series.allclose a a = true.
Proof.
  apply allclose_spec; [reflexivity|]. intros i _.
  replace (nth i a 0 - nth i a 0) with 0 by lra. rewrite Rabs_R0.
  pose proof (Rabs_pos (nth i a 0)). lra.
Qed.

(** Equality of two records, entry by entry. *)
Lemma eq_entrywise (self other : Series.TimeSeries) :
  Series.__eq__ self (Series.IsTimeSeries other) = true
  <-> Rabs (Series.dt other - Series.dt self) <= 1 / 100000000
      /\ Series.nsamples other = Series.nsamples self
      /\ forall i, (i < Series.nsamples self)%nat ->
           Rabs (nth i (Series.amplitude self) 0
                 - nth i (Series.amplitude other) 0)
           <= 1 / 100000000
              + 1 / 100000 * Rabs (nth i (Series.amplitude other) 0).
Proof.
  unfold Series.__eq__, Series.is_similar.
  destruct (Rlt_dec (1 / 100000000)
              (Rabs (Series.dt other - Series.dt self))) as [D|D].
  { cbn [negb]. split; [discriminate|]. intros (? & _). lra. }
  destruct (Nat.eqb_spec (Series.nsamples other) (Series.nsamples self))
    as [N|N].
  2:{ cbn [negb]. split; [discriminate|]. intros (_ & ? & _). contradiction. }
  cbn [negb].
  assert (L : length (Series.amplitude self) = length (Series.amplitude other))
    by (unfold Series.nsamples in N; congruence).
  pose proof (allclose_spec _ _ L) as S.
  destruct (Series.allclose (Series.amplitude self) (Series.amplitude other)).
  - cbn [negb]. split; [|reflexivity]. intros _.
    split; [lra|]. split; [assumption|]. now apply S.
  - cbn [negb]. split; [discriminate|]. intros (_ & _ & A).
    exact (proj2 S A).
Qed.

(** X25: two records compare equal exactly when their steps differ by at
    most 1e-8, they have as many samples, and every sample of the left one
    is within 1e-8 + 1e-5 * |sample of the right one| of it; no other
    object equals a record. *)
Theorem timeseries_eq_iff (self other : Series.TimeSeries) :
  (Series.__eq__ self (Series.IsTimeSeries other) = true
   <-> Rabs (Series.dt other - Series.dt self) <= 1 / 100000000
       /\ Series.nsamples other = Series.nsamples self
       /\ forall i, (i < Series.nsamples self)%nat ->
            Rabs (nth i (Series.amplitude self) 0
                  - nth i (Series.amplitude other) 0)
            <= 1 / 100000000
               + 1 / 100000 * Rabs (nth i (Series.amplitude other) 0))
  /\ Series.__eq__ self Series.Other = false.
Proof.
  split; [apply eq_entrywise|reflexivity].
Qed.

(** X26: a record equals itself and the copy [from_timeseries] makes of it,
    but equality is not symmetric: the tolerance on the samples is relative
    to the right operand. *)
Theorem timeseries_eq_reflexive_not_symmetric :
  (forall a, Series.__eq__ a (Series.IsTimeSeries a) = true)
  /\ (forall a,
         Series.__eq__ a (Series.IsTimeSeries (Series.from_timeseries a)) = true
         /\ Series.__eq__ (Series.from_timeseries a) (Series.IsTimeSeries a)
            = true)
  /\ (exists a b,
         Series.__eq__ a (Series.IsTimeSeries b) = true
         /\ Series.__eq__ b (Series.IsTimeSeries a) = false).
Proof.
  assert (Refl : forall a, Series.__eq__ a (Series.IsTimeSeries a) = true).
  { intros a. unfold Series.__eq__.
    rewrite is_similar_refl. cbn [negb].
    now rewrite allclose_refl. }
  split; [exact Refl|]. split.
  - intros [amp d]. unfold Series.from_timeseries.
    cbn [Series.amplitude Series.dt]. split; apply Refl.
  - exists {| Series.amplitude := [0]; Series.dt := 1 |},
           {| Series.amplitude := [100001 / 10000000000000]; Series.dt := 1 |}.
    split.
    + apply eq_entrywise. cbn [Series.dt Series.nsamples Series.amplitude length].
      split; [|split; [reflexivity|]].
      * replace (1 - 1) with 0 by lra. rewrite Rabs_R0. lra.
      * intros i I. replace i with 0%nat by lia. cbn [nth].
        rewrite Rabs_minus_sym.
        replace (100001 / 10000000000000 - 0)
          with (100001 / 10000000000000) by lra.
        rewrite Rabs_pos_eq by lra. lra.
    + destruct (Series.__eq__ _ _) eqn:E; [exfalso|reflexivity].
      apply eq_entrywise in E. destruct E as (_ & _ & A).
      specialize (A 0%nat ltac:(cbn; lia)). cbn [nth Series.amplitude] in A.
      rewrite Rabs_R0 in A.
      replace (100001 / 10000000000000 - 0)
        with (100001 / 10000000000000) in A by lra.
      rewrite Rabs_pos_eq in A by lra. lra.
Qed.
